(** * Batch migration of Ignition historian rows: a model of
      [scripts/migration/migrate_historian_data.py]

    The script copies the rows of a historian table into a target table in
    windows of one day, and afterwards compares the two tables.  The model
    below follows class [HistorianMigration] method by method.  Database
    sessions, the statements sent through them and the logger are the state
    the methods act on; they are threaded through a state-and-exception
    monad, so that "what was written", "what was logged" and "what was
    raised" are all observable. *)

From Stdlib Require Import ZArith Lia.
From stdpp Require Import gmap strings list sorting.
From Equations Require Import Equations.

Local Open Scope Z_scope.

(** ** Rows *)

(** The seven columns named by the SELECT and the INSERT of [migrate_batch].
    [tagid] and [t_stamp] are the NOT NULL key columns of the historian
    table; a double is carried as its bit pattern, the script never computes
    with it. *)
Record HistRecord : Type := mkRecord {
  tagid : Z;
  intvalue : option Z;
  floatvalue : option Z;
  stringvalue : option string;
  datevalue : option Z;
  dataintegrity : Z;
  t_stamp : Z
}.

#[global] Instance HistRecord_eq_dec : EqDecision HistRecord.
Proof. solve_decision. Defined.

(** ** Sessions, tables, statements *)

(** A session is identified with the database it is attached to: two sessions
    on the same number see the same tables.  A table is addressed by the
    session it is reached through and by its name. *)
Abbreviation Conn := nat (only parsing).
Abbreviation TableRef := (nat * string)%type (only parsing).

(** What a cursor was asked to run, in the order it was asked. *)
Inductive Stmt : Type :=
| SelectWindow (t : TableRef) (start_ts end_ts : Z)
| InsertOnConflictDoNothing (t : TableRef) (records : list HistRecord)
| Commit (c : Conn)
| SelectMinMax (t : TableRef)
| SelectCount (t : TableRef)
| SelectCountDistinctTag (t : TableRef).

(** Log records.  A message keeps the values that the f-string interpolates;
    the elapsed wall-clock time of a batch is not kept. *)
Inductive Level : Type := INFO | WARNING.

Inductive Msg : Type :=
| StartingBatchMigration
| TimeRange (min_ts max_ts : option Z)
| BatchMigrated (batch_num migrated day : Z)
| MigrationComplete (total_migrated : Z)
| ValidatingMigration
| SourceRecords (source_count : Z)
| TargetRecords (target_count : Z)
| RecordCountsMatch
| RecordCountMismatch (difference : Z)
| TimestampRangesMatch
| TimestampRangeMismatch
| TagCountsMatch (src_tags : Z)
| TagCountMismatch (src_tags tgt_tags : Z).

Record World : Type := mkWorld {
  tables : gmap TableRef (list HistRecord);
  statements : list Stmt;
  log : list (Level * Msg)
}.

(** ** Exceptions and the monad *)

(** What the methods can raise: the database refuses a statement on a table
    that does not exist; Python refuses to order [None]; and
    [datetime.fromtimestamp] refuses a time outside the range of dates it
    supports ([ValueError] stands for whichever error the platform gives). *)
Inductive exn : Type :=
| UndefinedTable (t : TableRef)
| TypeError
| ValueError.

Inductive outcome (A : Type) : Type :=
| Return (a : A)
| Raise (e : exn).
Arguments Return {A} a.
Arguments Raise {A} e.

Definition M (A : Type) : Type := World -> outcome A * World.

#[global] Instance M_ret : MRet M := fun A a w => (Return a, w).

#[global] Instance M_bind : MBind M := fun A B f c w =>
  match c w with
  | (Return a, w') => f a w'
  | (Raise e, w') => (Raise e, w')
  end.

Definition raise {A : Type} (e : exn) : M A := fun w => (Raise e, w).

Definition logger (lvl : Level) (m : Msg) : M unit := fun w =>
  (Return tt,
   {| tables := tables w; statements := statements w; log := log w ++ [(lvl, m)] |}).

Definition execute (s : Stmt) : M unit := fun w =>
  (Return tt,
   {| tables := tables w; statements := statements w ++ [s]; log := log w |}).

Definition read_table (t : TableRef) : M (list HistRecord) := fun w =>
  match tables w !! t with
  | Some rows => (Return rows, w)
  | None => (Raise (UndefinedTable t), w)
  end.

Definition write_table (t : TableRef) (rows : list HistRecord) : M unit := fun w =>
  (Return tt,
   {| tables := <[t := rows]> (tables w); statements := statements w; log := log w |}).

(** ** What the SQL statements compute *)

(** [WHERE t_stamp >= %s AND t_stamp < %s] *)
Definition in_window (start_ts end_ts : Z) (r : HistRecord) : Prop :=
  start_ts <= t_stamp r /\ t_stamp r < end_ts.

#[global] Instance in_window_dec start_ts end_ts r : Decision (in_window start_ts end_ts r).
Proof. unfold in_window. apply _. Defined.

(** Rows at or after a bound: what later windows can still see. *)
Definition not_before (bound : Z) (r : HistRecord) : Prop := bound <= t_stamp r.

#[global] Instance not_before_dec bound r : Decision (not_before bound r).
Proof. unfold not_before. apply _. Defined.

(** [ORDER BY t_stamp]; the order among rows of equal [t_stamp], which SQL
    leaves open, is the one of the merge sort. *)
Definition by_t_stamp (a b : HistRecord) : Prop := t_stamp a <= t_stamp b.

#[global] Instance by_t_stamp_dec : RelDecision by_t_stamp.
Proof. intros a b. unfold by_t_stamp. apply _. Defined.

Definition window_rows (start_ts end_ts : Z) (rows : list HistRecord) : list HistRecord :=
  merge_sort by_t_stamp (filter (in_window start_ts end_ts) rows).

(** [MIN(t_stamp)] and [MAX(t_stamp)]: NULL on a table with no rows. *)
Definition agg (f : Z -> Z -> Z) (rows : list HistRecord) : option Z :=
  match rows with
  | [] => None
  | r :: rest => Some (foldl (fun acc x => f acc (t_stamp x)) (t_stamp r) rest)
  end.

Definition min_t_stamp : list HistRecord -> option Z := agg Z.min.
Definition max_t_stamp : list HistRecord -> option Z := agg Z.max.

(** The row count and [COUNT(DISTINCT tagid)] *)
Definition count_rows (rows : list HistRecord) : Z := Z.of_nat (length rows).
Definition count_distinct_tagid (rows : list HistRecord) : Z :=
  Z.of_nat (length (remove_dups (tagid <$> rows))).

(** The object after [connect()]: both sessions are open, and they are the
    same session when the two configurations were equal.  The
    configurations themselves are read by [connect()] only and are not
    kept. *)
Record HistorianMigration : Type := mkMigration {
  batch_size : Z;
  source_conn : Conn;
  target_conn : Conn
}.

Definition batch_interval : Z := 86400000.

(** How many windows [migrate_all] still has to visit from [current_ts]. *)
Definition windows_ahead (max_ts current_ts : Z) : nat :=
  Z.to_nat ((max_ts - current_ts + batch_interval - 1) / batch_interval).

Section Migration.

(** The unique constraints of the target table are part of the database
    schema, not of the script: [conflict r r'] says that inserting [r]
    next to the stored row [r'] would violate one of them.  With no such
    constraint [conflict] is constantly [false]. *)
Variable conflict : HistRecord -> HistRecord -> bool.

(** [datetime.fromtimestamp(ms/1000).date()], as a day number in the local
    time zone of the host; [None] where the conversion raises. *)
Variable local_day : Z -> option Z.

(** One row of [INSERT ... ON CONFLICT DO NOTHING]. *)
Definition insert_row (rows : list HistRecord) (r : HistRecord) : list HistRecord :=
  if existsb (conflict r) rows then rows else rows ++ [r].

(** [r] would be skipped: some stored row conflicts with it. *)
Definition covered (rows : list HistRecord) (r : HistRecord) : Prop :=
  existsb (conflict r) rows = true.

(** [cursor.executemany(insert_query, records)] *)
Definition insert_rows (rows records : list HistRecord) : list HistRecord :=
  foldl insert_row rows records.

Definition fetch_window (t : TableRef) (start_ts end_ts : Z) : M (list HistRecord) :=
  execute (SelectWindow t start_ts end_ts);;
  rows ← read_table t;
  mret (window_rows start_ts end_ts rows).

Definition executemany_insert (t : TableRef) (records : list HistRecord) : M unit :=
  execute (InsertOnConflictDoNothing t records);;
  rows ← read_table t;
  write_table t (insert_rows rows records).

Definition commit (c : Conn) : M unit := execute (Commit c).

Definition fetch_min_max (t : TableRef) : M (option Z * option Z) :=
  execute (SelectMinMax t);;
  rows ← read_table t;
  mret (min_t_stamp rows, max_t_stamp rows).

Definition fetch_count (t : TableRef) : M Z :=
  execute (SelectCount t);;
  rows ← read_table t;
  mret (count_rows rows).

Definition fetch_count_distinct_tagid (t : TableRef) : M Z :=
  execute (SelectCountDistinctTag t);;
  rows ← read_table t;
  mret (count_distinct_tagid rows).

(** *** [migrate_batch] *)
Definition migrate_batch (self : HistorianMigration) (start_ts end_ts : Z)
    (source_table target_table : string) : M Z :=
  records ← fetch_window (source_conn self, source_table) start_ts end_ts;
  match records with
  | [] => mret 0
  | _ :: _ =>
      executemany_insert (target_conn self, target_table) records;;
      commit (target_conn self);;
      mret (Z.of_nat (length records))
  end.

(** *** [migrate_all] *)

(** One pass through the body of the [while] loop, up to the update of
    [total_migrated]; [batch_num] is the counter before its increment.
    The log line is written only for a batch that read something, and it
    formats the date of the window start. *)
Definition loop_body (self : HistorianMigration) (source_table target_table : string)
    (max_ts current_ts total_migrated batch_num : Z) : M Z :=
  let batch_num := batch_num + 1 in
  let end_ts := Z.min (current_ts + batch_interval) max_ts in
  migrated ← migrate_batch self current_ts end_ts source_table target_table;
  let total_migrated := total_migrated + migrated in
  (if decide (migrated > 0) then
     match local_day current_ts with
     | Some day => logger INFO (BatchMigrated batch_num migrated day)
     | None => raise ValueError
     end
   else mret tt);;
  mret total_migrated.

(** [while current_ts < max_ts: ...; current_ts = end_ts].  The number of
    day windows still ahead of [current_ts] shrinks with every pass, so
    the loop always ends. *)
Equations? migrate_loop (self : HistorianMigration) (source_table target_table : string)
    (max_ts current_ts total_migrated batch_num : Z) (w : World) : outcome Z * World
    by wf (windows_ahead max_ts current_ts) lt :=
  migrate_loop self source_table target_table max_ts current_ts total_migrated batch_num w
    with decide (current_ts < max_ts) := {
    | right _ := (Return total_migrated, w)
    | left _
        with loop_body self source_table target_table max_ts current_ts
               total_migrated batch_num w := {
        | (Raise e, w') := (Raise e, w')
        | (Return total_migrated', w') :=
            migrate_loop self source_table target_table max_ts
              (Z.min (current_ts + batch_interval) max_ts)
              total_migrated' (batch_num + 1) w' } }.
Proof.
unfold windows_ahead.
assert (HI : 0 < batch_interval) by (unfold batch_interval; lia).
apply Z2Nat.inj_lt; [apply Z.div_pos; lia | apply Z.div_pos; lia |].
destruct (Z.min_spec (current_ts + batch_interval) max_ts) as [[Hc ->] | [Hc ->]].
- replace (max_ts - current_ts + batch_interval - 1)
    with ((max_ts - (current_ts + batch_interval) + batch_interval - 1)
          + 1 * batch_interval) by lia.
  rewrite Z.div_add by lia. lia.
- replace (max_ts - max_ts + batch_interval - 1) with (batch_interval - 1) by lia.
  rewrite Z.div_small by lia.
  apply Z.div_str_pos. lia.
Qed.

(** Python 3 refuses [None < None]: on the NULL aggregates of a table
    without rows the first test of the loop condition raises. *)
Definition migrate_all (self : HistorianMigration)
    (source_table target_table : string) : M Z :=
  logger INFO StartingBatchMigration;;
  range ← fetch_min_max (source_conn self, source_table);
  logger INFO (TimeRange range.1 range.2);;
  match range with
  | (Some min_ts, Some max_ts) =>
      total_migrated ← migrate_loop self source_table target_table max_ts min_ts 0 0;
      logger INFO (MigrationComplete total_migrated);;
      mret total_migrated
  | _ => raise TypeError
  end.

(** *** [validate_migration] *)
Definition validate_migration (self : HistorianMigration)
    (source_table target_table : string) : M unit :=
  logger INFO ValidatingMigration;;
  source_count ← fetch_count (source_conn self, source_table);
  target_count ← fetch_count (target_conn self, target_table);
  logger INFO (SourceRecords source_count);;
  logger INFO (TargetRecords target_count);;
  (if decide (source_count = target_count)
   then logger INFO RecordCountsMatch
   else logger WARNING (RecordCountMismatch (source_count - target_count)));;
  src_range ← fetch_min_max (source_conn self, source_table);
  tgt_range ← fetch_min_max (target_conn self, target_table);
  (if decide (src_range = tgt_range)
   then logger INFO TimestampRangesMatch
   else logger WARNING TimestampRangeMismatch);;
  src_tags ← fetch_count_distinct_tagid (source_conn self, source_table);
  tgt_tags ← fetch_count_distinct_tagid (target_conn self, target_table);
  if decide (src_tags = tgt_tags)
  then logger INFO (TagCountsMatch src_tags)
  else logger WARNING (TagCountMismatch src_tags tgt_tags).

End Migration.

(** ** The script around the three methods *)

(** [connect], [analyze_source_data], [create_backup], [close] and [main].
    Here the object has its two configurations and its two sessions, which
    are [None] until [connect] sets them.  A session is opened by
    [psycopg2.connect] and is attached to one database; the three methods
    above see it as that database.  What the program takes from its
    environment is a parameter of the model: which database a configuration
    reaches, the clock, the conversion of a timestamp to a date, and the size
    that the server reports for a table.

    [create_backup] quotes the table names with [sql.Identifier] where the
    other methods splice them into the statement as they are.  Both name
    the same table when the name is in lower case and has no special
    character; table names are taken to be of that kind. *)

Module Script.

(** The keyword arguments of [psycopg2.connect]. *)
Record Config : Type := mkConfig {
  host : string;
  port : Z;
  database : string;
  user : string;
  password : string
}.

#[global] Instance Config_eq_dec : EqDecision Config.
Proof. solve_decision. Defined.

(** The object as [__init__] leaves it and [connect()] fills it.  A session
    is known by its rank among the sessions the process has opened. *)
Record Instance : Type := mkInstance {
  source_config : Config;
  target_config : Config;
  batch_size : Z;
  source_conn : option nat;
  target_conn : option nat
}.

Definition init (source_config target_config : Config) (batch_size : Z) : Instance :=
  mkInstance source_config target_config batch_size None None.

(** What can end a method of the script: an exception of the methods
    modelled above; a database that cannot be reached; a table that is
    already there; a method called on [None]; a closed session. *)
Inductive failure : Type :=
| Raised (e : exn)
| OperationalError (c : Config)
| DuplicateTable (t : TableRef)
| AttributeError
| InterfaceError.

Inductive result (A : Type) : Type :=
| Done (a : A)
| Failed (f : failure).
Arguments Done {A} a.
Arguments Failed {A} f.

Inductive Level : Type := INFO | ERROR.

Inductive Msg : Type :=
| ConnectingSource
| ConnectingTarget
| UsingSameDatabase
| AnalyzingSourceData
| TotalRecords (n : Z)
| UniqueTags (n : Z)
| DateRange (earliest latest : Z)
| TableSize (size : string)
| CreatingBackupTable (backup_name : string)
| BackupCreated (backup_name : string)
| BackupName (backup_name : string)
| MigrationCompletedSuccessfully
| MigrationFailed (f : failure).

Inductive Stmt : Type :=
| SelectStats (t : TableRef)
| CreateTableAs (backup table : TableRef)
| CommitBackup (c : Conn).

(** The process: the world of the three methods, the one object [main]
    works with, the sessions opened (each with the database it is attached
    to) and closed so far, and what the methods below have logged and asked
    the database.  A log record or statement of this layer carries the
    number of records, or statements, that the world held when it was
    written, which fixes its place among them. *)
Record Host : Type := mkHost {
  world : World;
  this : Instance;
  opened : list Conn;
  closed : list nat;
  report : list (nat * (Level * Msg));
  issued : list (nat * Stmt)
}.

Definition H (A : Type) : Type := Host -> result A * Host.

#[global] Instance H_ret : MRet H := fun A a h => (Done a, h).

#[global] Instance H_bind : MBind H := fun A B f c h =>
  match c h with
  | (Done a, h') => f a h'
  | (Failed e, h') => (Failed e, h')
  end.

Definition fail {A : Type} (f : failure) : H A := fun h => (Failed f, h).

Definition note (lvl : Level) (m : Msg) : H unit := fun h =>
  (Done tt,
   mkHost (world h) (this h) (opened h) (closed h)
     (report h ++ [(length (log (world h)), (lvl, m))]) (issued h)).

Definition issue (s : Stmt) : H unit := fun h =>
  (Done tt,
   mkHost (world h) (this h) (opened h) (closed h) (report h)
     (issued h ++ [(length (statements (world h)), s)])).

(** A computation of the three methods, run on the world of the process. *)
Definition lift {A : Type} (c : M A) : H A := fun h =>
  match c (world h) with
  | (Return a, w') =>
      (Done a, mkHost w' (this h) (opened h) (closed h) (report h) (issued h))
  | (Raise e, w') =>
      (Failed (Raised e), mkHost w' (this h) (opened h) (closed h) (report h) (issued h))
  end.

Definition find_table (t : TableRef) : M (option (list HistRecord)) := fun w =>
  (Return (tables w !! t), w).

Definition self : H Instance := fun h => (Done (this h), h).

Definition assign (f : Instance -> Instance) : H unit := fun h =>
  (Done tt, mkHost (world h) (f (this h)) (opened h) (closed h) (report h) (issued h)).

(** [conn.close()] *)
Definition close_session (s : nat) : H unit := fun h =>
  (Done tt, mkHost (world h) (this h) (opened h) (closed h ++ [s]) (report h) (issued h)).

(** [conn.cursor()], on what may be [None] or a closed session; the result
    is the database the cursor works on. *)
Definition cursor (conn : option nat) : H Conn := fun h =>
  match conn with
  | None => (Failed AttributeError, h)
  | Some s =>
      if decide (s ∈ closed h) then (Failed InterfaceError, h)
      else match opened h !! s with
           | Some db => (Done db, h)
           | None => (Failed InterfaceError, h)
           end
  end.

Section Script.

Variable conflict : HistRecord -> HistRecord -> bool.
Variable local_day : Z -> option Z.

(** Which database a configuration reaches; [None] when
    [psycopg2.connect] cannot reach any. *)
Variable reach : Config -> option Conn.

(** [datetime.fromtimestamp(ms/1000)] as a number; [None] where the
    conversion raises. *)
Variable local_time : Z -> option Z.

(** [pg_size_pretty(pg_total_relation_size(...))] for a table with these
    rows. *)
Variable pretty_size : list HistRecord -> string.

Definition psycopg2_connect (c : Config) : H nat := fun h =>
  match reach c with
  | Some db =>
      (Done (length (opened h)),
       mkHost (world h) (this h) (opened h ++ [db]) (closed h) (report h) (issued h))
  | None => (Failed (OperationalError c), h)
  end.

(** *** [connect] *)
Definition connect : H unit :=
  note INFO ConnectingSource;;
  me ← self;
  s ← psycopg2_connect (source_config me);
  assign (fun o => mkInstance (source_config o) (target_config o) (batch_size o)
                     (Some s) (target_conn o));;
  if decide (target_config me <> source_config me) then
    note INFO ConnectingTarget;;
    t ← psycopg2_connect (target_config me);
    assign (fun o => mkInstance (source_config o) (target_config o) (batch_size o)
                       (source_conn o) (Some t))
  else
    assign (fun o => mkInstance (source_config o) (target_config o) (batch_size o)
                       (source_conn o) (source_conn o));;
    note INFO UsingSameDatabase.

(** *** [analyze_source_data] *)

(** [datetime.fromtimestamp(x/1000)] on a value that may be NULL. *)
Definition fromtimestamp (ms : option Z) : H Z :=
  match ms with
  | None => fail (Raised TypeError)
  | Some ms =>
      match local_time ms with
      | Some t => mret t
      | None => fail (Raised ValueError)
      end
  end.

Definition analyze_source_data : H (Z * Z * option Z * option Z * string) :=
  note INFO AnalyzingSourceData;;
  me ← self;
  db ← cursor (source_conn me);
  issue (SelectStats (db, "sqlth_1_data"));;
  rows ← lift (read_table (db, "sqlth_1_data"));
  let stats := (count_rows rows, count_distinct_tagid rows,
                min_t_stamp rows, max_t_stamp rows, pretty_size rows) in
  note INFO (TotalRecords (count_rows rows));;
  note INFO (UniqueTags (count_distinct_tagid rows));;
  earliest ← fromtimestamp (min_t_stamp rows);
  latest ← fromtimestamp (max_t_stamp rows);
  note INFO (DateRange earliest latest);;
  note INFO (TableSize (pretty_size rows));;
  mret stats.

(** *** [create_backup]; [stamp] is [datetime.now()] in the format
    [%Y%m%d_%H%M%S]. *)
Definition backup_name_of (table_name stamp : string) : string :=
  table_name +:+ "_backup_" +:+ stamp.

(** [CREATE TABLE backup AS SELECT * FROM table]: the table must exist and
    the backup must not. *)
Definition create_table_as (backup table : TableRef) : H unit :=
  issue (CreateTableAs backup table);;
  rows ← lift (read_table table);
  existing ← lift (find_table backup);
  match existing with
  | Some _ => fail (DuplicateTable backup)
  | None => lift (write_table backup rows)
  end.

Definition create_backup (stamp : string) (table_name : string) : H string :=
  let backup_name := backup_name_of table_name stamp in
  note INFO (CreatingBackupTable backup_name);;
  me ← self;
  db ← cursor (target_conn me);
  create_table_as (db, backup_name) (db, table_name);;
  issue (CommitBackup db);;
  note INFO (BackupCreated backup_name);;
  mret backup_name.

(** *** [close] *)
Definition close : H unit :=
  me ← self;
  match source_conn me with
  | Some s => close_session s
  | None => mret tt
  end;;
  match target_conn me with
  | Some t =>
      if decide (target_conn me <> source_conn me) then close_session t else mret tt
  | None => mret tt
  end.

(** The object as the three methods above take it: with both sessions
    open.  [main] calls them after [connect()] has returned, when this is
    the case. *)
Definition connected : H HistorianMigration :=
  me ← self;
  src ← cursor (source_conn me);
  tgt ← cursor (target_conn me);
  mret (mkMigration (batch_size me) src tgt).

(** *** [main] *)

(** The parsed command line. *)
Record Args : Type := mkArgs {
  args_host : string;
  args_port : Z;
  args_database : string;
  args_user : string;
  args_password : string;
  args_source_table : string;
  args_target_table : string;
  args_batch_size : Z;
  args_no_backup : bool;
  args_validate_only : bool
}.

Definition db_config (args : Args) : Config :=
  mkConfig (args_host args) (args_port args) (args_database args)
    (args_user args) (args_password args).

(** The body of the [try], after [migration.connect()]. *)
Definition after_connect (args : Args) (stamp : string) : H unit :=
  analyze_source_data;;
  if args_validate_only args then
    me ← connected;
    lift (validate_migration me (args_source_table args) (args_target_table args))
  else
    (if args_no_backup args then mret tt
     else
       backup_name ← create_backup stamp (args_target_table args);
       note INFO (BackupName backup_name));;
    me ← connected;
    lift (migrate_all conflict local_day me
            (args_source_table args) (args_target_table args));;
    me ← connected;
    lift (validate_migration me (args_source_table args) (args_target_table args));;
    note INFO MigrationCompletedSuccessfully.

Definition attempt (args : Args) (stamp : string) : H unit :=
  connect;;
  after_connect args stamp.

(** [main]: the exit status of the process and the state it leaves. *)
Definition main (args : Args) (stamp : string) (h : Host) : Z * Host :=
  let migration := init (db_config args) (db_config args) (args_batch_size args) in
  let h0 := mkHost (world h) migration (opened h) (closed h) (report h) (issued h) in
  match attempt args stamp h0 with
  | (Done _, h1) => (0, (close h1).2)
  | (Failed f, h1) =>
      (1, (close (note ERROR (MigrationFailed f) h1).2).2)
  end.

End Script.

End Script.

(** ** Notions used to state the properties *)

(** A computation that leaves every table as it found it. *)
Definition reads_only {A : Type} (c : M A) : Prop :=
  forall w, tables (c w).2 = tables w.

(** The three verdicts of [validate_migration], as the log shows them. *)
Definition count_verdict (srows trows : list HistRecord) : Level * Msg :=
  if decide (count_rows srows = count_rows trows)
  then (INFO, RecordCountsMatch)
  else (WARNING, RecordCountMismatch (count_rows srows - count_rows trows)).

Definition range_verdict (srows trows : list HistRecord) : Level * Msg :=
  if decide ((min_t_stamp srows, max_t_stamp srows) = (min_t_stamp trows, max_t_stamp trows))
  then (INFO, TimestampRangesMatch)
  else (WARNING, TimestampRangeMismatch).

Definition tag_verdict (srows trows : list HistRecord) : Level * Msg :=
  if decide (count_distinct_tagid srows = count_distinct_tagid trows)
  then (INFO, TagCountsMatch (count_distinct_tagid srows))
  else (WARNING, TagCountMismatch (count_distinct_tagid srows) (count_distinct_tagid trows)).

(** What a pass over [[current_ts, end_ts)] can do to the tables and what it
    hands back: the source table is missing; the window is empty; the
    target table is missing; or the rows of the window are written, after
    which the log line either goes through or raises. *)
Inductive pass_spec (conflict : HistRecord -> HistRecord -> bool)
    (local_day : Z -> option Z)
    (self : HistorianMigration) (source_table target_table : string)
    (current_ts end_ts total : Z) (w : World) :
    outcome Z * World -> Prop :=
| pass_no_source w' :
    tables w !! (source_conn self, source_table) = None ->
    tables w' = tables w ->
    pass_spec conflict local_day self source_table target_table current_ts end_ts
      total w (Raise (UndefinedTable (source_conn self, source_table)), w')
| pass_empty srows w' :
    tables w !! (source_conn self, source_table) = Some srows ->
    window_rows current_ts end_ts srows = [] ->
    tables w' = tables w ->
    log w' = log w ->
    pass_spec conflict local_day self source_table target_table current_ts end_ts
      total w (Return total, w')
| pass_no_target srows w' :
    tables w !! (source_conn self, source_table) = Some srows ->
    window_rows current_ts end_ts srows <> [] ->
    tables w !! (target_conn self, target_table) = None ->
    tables w' = tables w ->
    pass_spec conflict local_day self source_table target_table current_ts end_ts
      total w (Raise (UndefinedTable (target_conn self, target_table)), w')
| pass_written srows trows w' :
    tables w !! (source_conn self, source_table) = Some srows ->
    window_rows current_ts end_ts srows <> [] ->
    tables w !! (target_conn self, target_table) = Some trows ->
    tables w' =
      <[(target_conn self, target_table) :=
          insert_rows conflict trows (window_rows current_ts end_ts srows)]> (tables w) ->
    pass_spec conflict local_day self source_table target_table current_ts end_ts
      total w
      (match local_day current_ts with
       | Some _ =>
           Return (total + Z.of_nat (length (window_rows current_ts end_ts srows)))
       | None => Raise ValueError
       end, w').

(** At the head of the loop, for a run that started on the source rows
    [srows]: the total is the number of source rows in the
    windows behind [current_ts]; the rows at or after [current_ts] are
    still the ones the run started with (a run of a table into itself adds
    rows, but only behind [current_ts]); the target table is there. *)
Definition counting (self : HistorianMigration) (source_table target_table : string)
    (srows : list HistRecord) (min_ts max_ts : Z)
    (current_ts total batch_num : Z) (w : World) : Prop :=
  min_ts <= current_ts <= max_ts /\
  total = Z.of_nat (length (filter (in_window min_ts current_ts) srows)) /\
  (exists rows,
     tables w !! (source_conn self, source_table) = Some rows /\
     filter (not_before current_ts) rows = filter (not_before current_ts) srows) /\
  is_Some (tables w !! (target_conn self, target_table)).

(** What a run may do to the tables: rows are appended to the target table,
    and nothing else happens. *)
Definition extends_target (T : TableRef) (w w' : World) : Prop :=
  (forall u, u <> T -> tables w' !! u = tables w !! u) /\
  match tables w !! T with
  | Some trows => exists trows', tables w' !! T = Some trows' /\ trows `prefix_of` trows'
  | None => tables w' !! T = None
  end.

(** The world in which [migrate_all] enters its loop. *)
Definition loop_entry (S : TableRef) (srows : list HistRecord) (w : World) : World :=
  mkWorld (tables w) (statements w ++ [SelectMinMax S])
    ((log w ++ [(INFO, StartingBatchMigration)])
     ++ [(INFO, TimeRange (min_t_stamp srows) (max_t_stamp srows))]).

Definition is_select_window (s : Stmt) : Prop :=
  match s with SelectWindow _ _ _ => True | _ => False end.

(** The windows a list of statements asks for, in order. *)
Definition asked_windows (stmts : list Stmt) : list (Z * Z) :=
  omap (fun s => match s with
                 | SelectWindow _ start_ts end_ts => Some (start_ts, end_ts)
                 | _ => None
                 end) stmts.

(** Windows that follow one another without a gap, from [start_ts] up to
    [stop_ts]. *)
Fixpoint chained (start_ts : Z) (wins : list (Z * Z)) (stop_ts : Z) : Prop :=
  match wins with
  | [] => stop_ts = start_ts
  | win :: rest => win.1 = start_ts /\ win.1 < win.2 /\ chained win.2 rest stop_ts
  end.

(** [t] lies in the window. *)
Definition holds (t : Z) (win : Z * Z) : Prop := win.1 <= t < win.2.

#[global] Instance holds_dec t win : Decision (holds t win).
Proof. unfold holds. apply _. Defined.

(** [batch_size] replaced, the sessions kept. *)
Definition with_batch_size (size : Z) (self : HistorianMigration) : HistorianMigration :=
  mkMigration size (source_conn self) (target_conn self).

(** *** Of a run, window by window *)

(** At the head of the loop: whatever the source table holds is a row the
    run started with, and the target is what it was plus rows that the
    source had in the range. *)
Definition adding (self : HistorianMigration) (source_table target_table : string)
    (srows trows : list HistRecord) (min_ts max_ts : Z)
    (current_ts : Z) (w : World) : Prop :=
  min_ts <= current_ts /\
  (forall rows, tables w !! (source_conn self, source_table) = Some rows ->
     forall r, r ∈ rows -> r ∈ srows) /\
  exists added,
    tables w !! (target_conn self, target_table) = Some (trows ++ added) /\
    forall r, r ∈ added -> r ∈ srows /\ in_window min_ts max_ts r.

(** At the head of the loop: the source is as the run found it, and every
    source row of a window behind [current_ts] has a conflicting row in the
    target. *)
Definition covering (conflict : HistRecord -> HistRecord -> bool)
    (self : HistorianMigration) (source_table target_table : string)
    (srows : list HistRecord) (min_ts : Z)
    (current_ts : Z) (w : World) : Prop :=
  tables w !! (source_conn self, source_table) = Some srows /\
  exists trows,
    tables w !! (target_conn self, target_table) = Some trows /\
    forall r, r ∈ srows -> in_window min_ts current_ts r -> covered conflict trows r.

(** At the head of the loop: the source is as the run found it, and the
    target has grown by no more rows than the windows behind [current_ts]
    hold. *)
Definition bounded (self : HistorianMigration) (source_table target_table : string)
    (srows trows : list HistRecord) (min_ts max_ts : Z)
    (current_ts : Z) (w : World) : Prop :=
  min_ts <= current_ts <= max_ts /\
  tables w !! (source_conn self, source_table) = Some srows /\
  exists trows',
    tables w !! (target_conn self, target_table) = Some trows' /\
    (length trows'
     <= length trows + length (filter (in_window min_ts current_ts) srows))%nat.

(** Rows that carry a given [t_stamp]. *)
Definition at_instant (ts : Z) (r : HistRecord) : Prop := t_stamp r = ts.

#[global] Instance at_instant_dec ts r : Decision (at_instant ts r).
Proof. unfold at_instant. apply _. Defined.

(** *** Of the script *)

(** [R] relates the state before and after whatever [c] does. *)
Definition preserves {A : Type} (R : relation Script.Host) (c : Script.H A) : Prop :=
  forall h, R h (c h).2.

Definition same_tables : relation Script.Host :=
  fun h h' => tables (Script.world h') = tables (Script.world h).

Definition same_sessions : relation Script.Host :=
  fun h h' =>
    Script.this h' = Script.this h /\
    Script.opened h' = Script.opened h /\
    Script.closed h' = Script.closed h.

Definition same_tables_but (names : list string) : relation Script.Host :=
  fun h h' => forall db table_name, table_name ∉ names ->
    tables (Script.world h') !! (db, table_name)
    = tables (Script.world h) !! (db, table_name).

(** No session is closed that was not opened. *)
Definition sound (h : Script.Host) : Prop :=
  Forall (fun s => (s < length (Script.opened h))%nat) (Script.closed h).

(** What the analysis hands back for a table with these rows. *)
Definition analysis (local_time : Z -> option Z)
    (pretty_size : list HistRecord -> string) (rows : list HistRecord) :
    Script.result (Z * Z * option Z * option Z * string) :=
  match min_t_stamp rows, max_t_stamp rows with
  | Some min_ts, Some max_ts =>
      match local_time min_ts, local_time max_ts with
      | Some _, Some _ =>
          Script.Done (count_rows rows, count_distinct_tagid rows,
                       Some min_ts, Some max_ts, pretty_size rows)
      | _, _ => Script.Failed (Script.Raised ValueError)
      end
  | _, _ => Script.Failed (Script.Raised TypeError)
  end.

(** The state in which [main] enters its [try]. *)
Definition entering (args : Script.Args) (h : Script.Host) : Script.Host :=
  Script.mkHost (Script.world h)
    (Script.init (Script.db_config args) (Script.db_config args)
       (Script.args_batch_size args))
    (Script.opened h) (Script.closed h) (Script.report h) (Script.issued h).

(** ** Concrete worlds *)

Definition rec_at (tag ts : Z) : HistRecord :=
  mkRecord tag (Some 1) None None None 192 ts.

(** A unique constraint on [(tagid, t_stamp)]. *)
Definition pk_conflict (r r' : HistRecord) : bool :=
  bool_decide (tagid r = tagid r' /\ t_stamp r = t_stamp r').

Definition no_conflict (r r' : HistRecord) : bool := false.

(** Day number in UTC. *)
Definition utc_day (ms : Z) : option Z := Some (ms / 86400000).

Definition two_tables (src tgt : list HistRecord) : World :=
  mkWorld (<[(0%nat, "sqlth_1_data") := src]> (<[(0%nat, "sqlth_1_data_ts") := tgt]> ∅)) [] [].

Definition me : HistorianMigration := mkMigration 100000 0%nat 0%nat.

(** *** A concrete process *)

Definition historian : Script.Config :=
  Script.mkConfig "localhost" 5432 "historian" "ignition" "secret".

Definition archive : Script.Config :=
  Script.mkConfig "localhost" 5433 "archive" "ignition" "secret".

(** The historian is database 0 and the archive database 1. *)
Definition by_port (c : Script.Config) : option Conn :=
  if decide (Script.port c = 5432) then Some 0%nat else Some 1%nat.

Definition unreachable (c : Script.Config) : option Conn := None.

Definition utc_seconds (ms : Z) : option Z := Some (ms / 1000).

Definition one_page (rows : list HistRecord) : string := "8192 bytes".

(** A process that has not connected yet. *)
Definition fresh (source_config target_config : Script.Config) (w : World) : Script.Host :=
  Script.mkHost w (Script.init source_config target_config 100000) [] [] [] [].

(** A process with one session, on database 0, for source and target. *)
Definition linked (w : World) : Script.Host :=
  Script.mkHost w (Script.mkInstance historian historian 100000 (Some 0%nat) (Some 0%nat))
    [0%nat] [] [] [].

Definition defaults : Script.Args :=
  Script.mkArgs "localhost" 5432 "historian" "ignition" "secret"
    "sqlth_1_data" "sqlth_1_data" 100000 false false.

Definition with_tables (source_table target_table : string) (args : Script.Args) :
    Script.Args :=
  Script.mkArgs (Script.args_host args) (Script.args_port args)
    (Script.args_database args) (Script.args_user args) (Script.args_password args)
    source_table target_table (Script.args_batch_size args)
    (Script.args_no_backup args) (Script.args_validate_only args).

Definition validate_only (args : Script.Args) : Script.Args :=
  Script.mkArgs (Script.args_host args) (Script.args_port args)
    (Script.args_database args) (Script.args_user args) (Script.args_password args)
    (Script.args_source_table args) (Script.args_target_table args)
    (Script.args_batch_size args) (Script.args_no_backup args) true.

(** * Properties *)

(** ** Rows selected by a window *)

Lemma window_rows_perm start_ts end_ts rows :
  window_rows start_ts end_ts rows ≡ₚ filter (in_window start_ts end_ts) rows.
Proof. unfold window_rows. apply merge_sort_Permutation. Qed.

Lemma window_rows_length start_ts end_ts rows :
  length (window_rows start_ts end_ts rows)
  = length (filter (in_window start_ts end_ts) rows).
Proof. apply Permutation_length, window_rows_perm. Qed.

Lemma window_rows_elem start_ts end_ts rows r :
  r ∈ window_rows start_ts end_ts rows <-> in_window start_ts end_ts r /\ r ∈ rows.
Proof. rewrite window_rows_perm. apply list_elem_of_filter. Qed.

Lemma window_rows_nil start_ts end_ts (rows : list HistRecord) :
  filter (in_window start_ts end_ts) rows = [] ->
  window_rows start_ts end_ts rows = [].
Proof.
  intros Hnone. apply Permutation_nil_r.
  rewrite <- Hnone. apply window_rows_perm.
Qed.

Lemma filter_window_not_before bound start_ts end_ts (rows : list HistRecord) :
  bound <= start_ts ->
  filter (in_window start_ts end_ts) (filter (not_before bound) rows)
  = filter (in_window start_ts end_ts) rows.
Proof.
  intros Hle. induction rows as [|r rows IH]; [reflexivity|].
  rewrite (filter_cons (not_before bound)).
  destruct (decide (not_before bound r)) as [Hnb|Hnb].
  - rewrite !filter_cons, IH. reflexivity.
  - rewrite IH, filter_cons.
    destruct (decide (in_window start_ts end_ts r)) as [[Hs _]|_]; [|reflexivity].
    exfalso. apply Hnb. unfold not_before. lia.
Qed.

Lemma filter_not_before_mono bound bound' (rows rows' : list HistRecord) :
  bound <= bound' ->
  filter (not_before bound) rows' = filter (not_before bound) rows ->
  filter (not_before bound') rows' = filter (not_before bound') rows.
Proof.
  intros Hle Heq.
  assert (Hnest : forall l : list HistRecord,
             filter (not_before bound') (filter (not_before bound) l)
             = filter (not_before bound') l).
  { induction l as [|r l IH]; [reflexivity|].
    rewrite (filter_cons (not_before bound)).
    destruct (decide (not_before bound r)) as [Hnb|Hnb].
    - rewrite !filter_cons, IH. reflexivity.
    - rewrite IH, filter_cons.
      destruct (decide (not_before bound' r)) as [Hnb'|_]; [|reflexivity].
      exfalso. apply Hnb. unfold not_before in *. lia. }
  rewrite <- (Hnest rows'), <- (Hnest rows), Heq. reflexivity.
Qed.

Lemma filter_window_empty lo (rows : list HistRecord) :
  filter (in_window lo lo) rows = [].
Proof.
  induction rows as [|r rows IH]; [reflexivity|].
  rewrite filter_cons, IH.
  destruct (decide (in_window lo lo r)) as [[? ?]|_]; [lia|reflexivity].
Qed.

(** The windows visited so far add up. *)
Lemma filter_window_split lo mid hi (rows : list HistRecord) :
  lo <= mid -> mid <= hi ->
  (length (filter (in_window lo hi) rows)
   = length (filter (in_window lo mid) rows)
     + length (filter (in_window mid hi) rows))%nat.
Proof.
  intros Hlo Hhi. induction rows as [|r rows IH]; [reflexivity|].
  rewrite !filter_cons. unfold in_window in *.
  repeat destruct (decide _); simpl; lia.
Qed.

(** ** INSERT ... ON CONFLICT DO NOTHING *)

Section Insert.

Variable conflict : HistRecord -> HistRecord -> bool.

Lemma covered_app rows extra r :
  covered conflict rows r -> covered conflict (rows ++ extra) r.
Proof. unfold covered. rewrite existsb_app. intros ->. reflexivity. Qed.

Lemma insert_row_prefix rows r : rows `prefix_of` insert_row conflict rows r.
Proof.
  unfold insert_row. destruct (existsb (conflict r) rows).
  - reflexivity.
  - apply prefix_app_r. reflexivity.
Qed.

Lemma insert_rows_prefix records :
  forall rows, rows `prefix_of` insert_rows conflict rows records.
Proof.
  unfold insert_rows. induction records as [|r records IH]; intros rows; simpl.
  - reflexivity.
  - etrans; [apply insert_row_prefix | apply IH].
Qed.

Lemma covered_prefix rows rows' r :
  rows `prefix_of` rows' -> covered conflict rows r -> covered conflict rows' r.
Proof. intros [extra ->]. apply covered_app. Qed.

(** Rows that are all covered leave the table as it is. *)
Lemma insert_rows_covered records :
  forall rows,
    Forall (covered conflict rows) records -> insert_rows conflict rows records = rows.
Proof.
  unfold insert_rows. induction records as [|r records IH]; intros rows Hcov; simpl.
  - reflexivity.
  - inversion Hcov as [|? ? Hr Hrest]; subst.
    unfold insert_row at 2. unfold covered in Hr. rewrite Hr. apply IH, Hrest.
Qed.

(** What was inserted lies outside [P] if the inserted rows do. *)
Lemma insert_rows_filter (P : HistRecord -> Prop) `{!forall r, Decision (P r)} records :
  forall rows, Forall (fun r => ~ P r) records ->
  filter P (insert_rows conflict rows records) = filter P rows.
Proof.
  unfold insert_rows. induction records as [|r records IH]; intros rows Hout; simpl.
  - reflexivity.
  - inversion Hout as [|? ? Hr Hrest]; subst.
    rewrite IH by exact Hrest.
    unfold insert_row. destruct (existsb (conflict r) rows); [reflexivity|].
    rewrite filter_app, filter_cons, decide_False by exact Hr.
    rewrite filter_nil. apply app_nil_r.
Qed.

Hypothesis conflict_refl : forall r, conflict r r = true.

Lemma insert_row_covers rows r : covered conflict (insert_row conflict rows r) r.
Proof.
  unfold insert_row, covered.
  destruct (existsb (conflict r) rows) eqn:Hex; [exact Hex|].
  rewrite existsb_app. simpl. rewrite conflict_refl. apply orb_true_r.
Qed.

(** After the batch is written every one of its rows is covered. *)
Lemma insert_rows_covers records :
  forall rows, Forall (covered conflict (insert_rows conflict rows records)) records.
Proof.
  induction records as [|r records IH]; intros rows; [constructor|].
  constructor.
  - eapply covered_prefix; [|apply insert_row_covers].
    change (insert_rows conflict rows (r :: records))
      with (insert_rows conflict (insert_row conflict rows r) records).
    apply insert_rows_prefix.
  - apply IH.
Qed.

End Insert.

(** ** One step of each method, written out *)

Section Steps.

Variable conflict : HistRecord -> HistRecord -> bool.
Variable local_day : Z -> option Z.
Variable self : HistorianMigration.
Variables source_table target_table : string.

Let S : TableRef := (source_conn self, source_table).
Let T : TableRef := (target_conn self, target_table).

Lemma migrate_batch_run start_ts end_ts w :
  migrate_batch conflict self start_ts end_ts source_table target_table w =
  let asked := statements w ++ [SelectWindow S start_ts end_ts] in
  match tables w !! S with
  | None => (Raise (UndefinedTable S), mkWorld (tables w) asked (log w))
  | Some srows =>
      match window_rows start_ts end_ts srows with
      | [] => (Return 0, mkWorld (tables w) asked (log w))
      | r :: rest =>
          let records := r :: rest in
          let asked' := asked ++ [InsertOnConflictDoNothing T records] in
          match tables w !! T with
          | None => (Raise (UndefinedTable T), mkWorld (tables w) asked' (log w))
          | Some trows =>
              (Return (Z.of_nat (length records)),
               mkWorld (<[T := insert_rows conflict trows records]> (tables w))
                 (asked' ++ [Commit (target_conn self)]) (log w))
          end
      end
  end.
Proof.
  unfold migrate_batch, fetch_window, executemany_insert, commit, read_table,
    write_table, execute, mbind, M_bind, mret, M_ret, S, T. cbn.
  destruct (tables w !! (source_conn self, source_table)) as [srows|]; [|reflexivity].
  destruct (window_rows start_ts end_ts srows) as [|r rest]; [reflexivity|]. cbn.
  destruct (tables w !! (target_conn self, target_table)) as [trows|]; reflexivity.
Qed.

Lemma loop_body_run max_ts current_ts total_migrated batch_num w :
  loop_body conflict local_day self source_table target_table max_ts current_ts
    total_migrated batch_num w =
  match migrate_batch conflict self current_ts
          (Z.min (current_ts + batch_interval) max_ts) source_table target_table w with
  | (Raise e, w') => (Raise e, w')
  | (Return migrated, w') =>
      if decide (migrated > 0) then
        match local_day current_ts with
        | Some day =>
            (Return (total_migrated + migrated),
             mkWorld (tables w') (statements w')
               (log w' ++ [(INFO, BatchMigrated (batch_num + 1) migrated day)]))
        | None => (Raise ValueError, w')
        end
      else (Return (total_migrated + migrated), w')
  end.
Proof.
  unfold loop_body, mbind, M_bind, mret, M_ret.
  destruct (migrate_batch _ _ _ _ _ _ w) as [[migrated|e] w']; [|reflexivity].
  destruct (decide (migrated > 0)); [|reflexivity].
  destruct (local_day current_ts); reflexivity.
Qed.

Lemma migrate_loop_step max_ts current_ts total_migrated batch_num w :
  migrate_loop conflict local_day self source_table target_table max_ts current_ts
    total_migrated batch_num w =
  if decide (current_ts < max_ts) then
    match loop_body conflict local_day self source_table target_table max_ts
            current_ts total_migrated batch_num w with
    | (Return total', w') =>
        migrate_loop conflict local_day self source_table target_table max_ts
          (Z.min (current_ts + batch_interval) max_ts) total' (batch_num + 1) w'
    | (Raise e, w') => (Raise e, w')
    end
  else (Return total_migrated, w).
Proof.
  simp migrate_loop.
  destruct (decide (current_ts < max_ts)); simpl; [|reflexivity].
  destruct (loop_body _ _ _ _ _ _ _ _ _ _) as [[tot'|e] w']; reflexivity.
Qed.

Lemma migrate_all_run w :
  migrate_all conflict local_day self source_table target_table w =
  let started :=
    mkWorld (tables w) (statements w ++ [SelectMinMax S])
      (log w ++ [(INFO, StartingBatchMigration)]) in
  match tables w !! S with
  | None => (Raise (UndefinedTable S), started)
  | Some srows =>
      let ranged :=
        mkWorld (tables w) (statements started)
          (log started ++ [(INFO, TimeRange (min_t_stamp srows) (max_t_stamp srows))]) in
      match min_t_stamp srows, max_t_stamp srows with
      | Some min_ts, Some max_ts =>
          match migrate_loop conflict local_day self source_table target_table
                  max_ts min_ts 0 0 ranged with
          | (Return total_migrated, w') =>
              (Return total_migrated,
               mkWorld (tables w') (statements w')
                 (log w' ++ [(INFO, MigrationComplete total_migrated)]))
          | (Raise e, w') => (Raise e, w')
          end
      | _, _ => (Raise TypeError, ranged)
      end
  end.
Proof.
  unfold migrate_all, fetch_min_max, read_table, execute, logger, raise,
    mbind, M_bind, mret, M_ret, S. cbn.
  destruct (tables w !! (source_conn self, source_table)) as [srows|]; [|reflexivity].
  cbn. destruct (min_t_stamp srows), (max_t_stamp srows); reflexivity.
Qed.

(** Induction along the windows of the loop. *)
Lemma window_induction (max_ts : Z) (P : Z -> Prop) :
  (forall current_ts,
     (current_ts < max_ts -> P (Z.min (current_ts + batch_interval) max_ts)) ->
     P current_ts) ->
  forall current_ts, P current_ts.
Proof.
  intros Hstep current_ts.
  remember (windows_ahead max_ts current_ts) as n eqn:Hn.
  revert current_ts Hn.
  induction n as [n IH] using lt_wf_ind. intros current_ts ->.
  apply Hstep. intros Hlt.
  eapply IH; [|reflexivity].
  unfold windows_ahead.
  assert (HI : 0 < batch_interval) by (unfold batch_interval; lia).
  apply Z2Nat.inj_lt; [apply Z.div_pos; lia | apply Z.div_pos; lia |].
  destruct (Z.min_spec (current_ts + batch_interval) max_ts) as [[Hc ->] | [Hc ->]].
  - replace (max_ts - current_ts + batch_interval - 1)
      with ((max_ts - (current_ts + batch_interval) + batch_interval - 1)
            + 1 * batch_interval) by lia.
    rewrite Z.div_add by lia. lia.
  - replace (max_ts - max_ts + batch_interval - 1) with (batch_interval - 1) by lia.
    rewrite Z.div_small by lia.
    apply Z.div_str_pos. lia.
Qed.

(** The rule of the [while] loop: an invariant [I] kept by every pass that
    returns, and a conclusion [Q] reached at the exit or when a pass
    raises. *)
Lemma migrate_loop_rule (max_ts : Z) (I : Z -> Z -> Z -> World -> Prop)
    (Q : outcome Z * World -> Prop) :
  (forall current_ts total batch_num w,
     I current_ts total batch_num w -> ~ current_ts < max_ts -> Q (Return total, w)) ->
  (forall current_ts total batch_num w,
     I current_ts total batch_num w -> current_ts < max_ts ->
     match loop_body conflict local_day self source_table target_table max_ts
             current_ts total batch_num w with
     | (Return total', w') =>
         I (Z.min (current_ts + batch_interval) max_ts) total' (batch_num + 1) w'
     | (Raise e, w') => Q (Raise e, w')
     end) ->
  forall current_ts total batch_num w,
    I current_ts total batch_num w ->
    Q (migrate_loop conflict local_day self source_table target_table max_ts
         current_ts total batch_num w).
Proof.
  intros Hexit Hpass current_ts.
  induction current_ts as [current_ts IH] using (window_induction max_ts).
  intros total batch_num w HI.
  rewrite migrate_loop_step.
  destruct (decide (current_ts < max_ts)) as [Hlt|Hge].
  - specialize (Hpass _ _ _ _ HI Hlt).
    destruct (loop_body _ _ _ _ _ _ _ _ _ _) as [[total'|e] w'].
    + apply IH; assumption.
    + exact Hpass.
  - eapply Hexit; eassumption.
Qed.

End Steps.

(** ** A batch whose window is empty *)

(** C7. When no source row has its [t_stamp] in [[start_ts, end_ts)],
    [migrate_batch] returns 0; the tables are as they were, and the only
    statement it ran is the SELECT of the window: no INSERT, no COMMIT. *)
Theorem migrate_batch_empty_window conflict self start_ts end_ts
    source_table target_table w srows :
  tables w !! (source_conn self, source_table) = Some srows ->
  filter (in_window start_ts end_ts) srows = [] ->
  migrate_batch conflict self start_ts end_ts source_table target_table w
  = (Return 0,
     mkWorld (tables w)
       (statements w ++ [SelectWindow (source_conn self, source_table) start_ts end_ts])
       (log w)).
Proof.
  intros Hsrc Hnone.
  rewrite migrate_batch_run. cbv zeta.
  rewrite Hsrc, (window_rows_nil _ _ _ Hnone). reflexivity.
Qed.

(** ** Computations that only read *)

Lemma reads_only_ret {A : Type} (a : A) : reads_only (mret a).
Proof. intros w. reflexivity. Qed.

Lemma reads_only_bind {A B : Type} (c : M A) (f : A -> M B) :
  reads_only c -> (forall a, reads_only (f a)) -> reads_only (c ≫= f).
Proof.
  intros Hc Hf w. unfold mbind, M_bind.
  specialize (Hc w). destruct (c w) as [[a|e] w']; simpl in *.
  - rewrite Hf. exact Hc.
  - exact Hc.
Qed.

Lemma reads_only_logger lvl m : reads_only (logger lvl m).
Proof. intros w. reflexivity. Qed.

Lemma reads_only_execute s : reads_only (execute s).
Proof. intros w. reflexivity. Qed.

Lemma reads_only_read_table t : reads_only (read_table t).
Proof. intros w. unfold read_table. destruct (tables w !! t); reflexivity. Qed.

Lemma reads_only_raise {A : Type} e : reads_only (@raise A e).
Proof. intros w. reflexivity. Qed.

Create HintDb reads.
#[global] Hint Resolve reads_only_ret reads_only_logger reads_only_execute
  reads_only_read_table reads_only_raise : reads.

Ltac reads_only_steps :=
  repeat first
    [ apply reads_only_bind; [|intros ?]
    | case_decide
    | solve [auto with reads] ].

Lemma reads_only_fetch_count t : reads_only (fetch_count t).
Proof. unfold fetch_count. reads_only_steps. Qed.

Lemma reads_only_fetch_min_max t : reads_only (fetch_min_max t).
Proof. unfold fetch_min_max. reads_only_steps. Qed.

Lemma reads_only_fetch_count_distinct_tagid t :
  reads_only (fetch_count_distinct_tagid t).
Proof. unfold fetch_count_distinct_tagid. reads_only_steps. Qed.

#[global] Hint Resolve reads_only_fetch_count reads_only_fetch_min_max
  reads_only_fetch_count_distinct_tagid : reads.

Lemma reads_only_validate_migration self source_table target_table :
  reads_only (validate_migration self source_table target_table).
Proof. unfold validate_migration. reads_only_steps. Qed.

(** ** The validation pass *)

Lemma validate_migration_run self source_table target_table w srows trows :
  tables w !! (source_conn self, source_table) = Some srows ->
  tables w !! (target_conn self, target_table) = Some trows ->
  validate_migration self source_table target_table w
  = (Return tt,
     mkWorld (tables w)
       (statements w ++
        [SelectCount (source_conn self, source_table);
         SelectCount (target_conn self, target_table);
         SelectMinMax (source_conn self, source_table);
         SelectMinMax (target_conn self, target_table);
         SelectCountDistinctTag (source_conn self, source_table);
         SelectCountDistinctTag (target_conn self, target_table)])
       (log w ++
        [(INFO, ValidatingMigration);
         (INFO, SourceRecords (count_rows srows));
         (INFO, TargetRecords (count_rows trows));
         count_verdict srows trows;
         range_verdict srows trows;
         tag_verdict srows trows])).
Proof.
  intros Hsrc Htgt.
  unfold validate_migration, fetch_count, fetch_min_max, fetch_count_distinct_tagid,
    read_table, execute, logger, mbind, M_bind, mret, M_ret.
  cbn. rewrite Hsrc. cbn. rewrite Htgt. cbn.
  unfold count_verdict, range_verdict, tag_verdict.
  destruct (decide (count_rows srows = count_rows trows)); cbn;
    rewrite Hsrc; cbn; rewrite Htgt; cbn;
    destruct (decide (_ = (min_t_stamp trows, max_t_stamp trows))); cbn;
    rewrite Hsrc; cbn; rewrite Htgt; cbn;
    destruct (decide (count_distinct_tagid srows = count_distinct_tagid trows)); cbn;
    rewrite <- !app_assoc; reflexivity.
Qed.

(** C8. [validate_migration] never changes a table, whatever it finds and
    even when it raises for a table that does not exist.  On two tables that
    exist it returns normally: it has run six SELECTs and nothing else, and
    each comparison that fails shows as a WARNING record in the log. *)
Theorem validate_migration_reads_and_warns self source_table target_table w :
  tables (validate_migration self source_table target_table w).2 = tables w /\
  forall srows trows,
    tables w !! (source_conn self, source_table) = Some srows ->
    tables w !! (target_conn self, target_table) = Some trows ->
    let result := validate_migration self source_table target_table w in
    result.1 = Return tt /\
    Forall (fun s => match s with
                     | InsertOnConflictDoNothing _ _ | Commit _ => False
                     | _ => True
                     end)
      (drop (length (statements w)) (statements result.2)) /\
    (count_rows srows <> count_rows trows ->
     (WARNING, RecordCountMismatch (count_rows srows - count_rows trows)) ∈ log result.2) /\
    ((min_t_stamp srows, max_t_stamp srows) <> (min_t_stamp trows, max_t_stamp trows) ->
     (WARNING, TimestampRangeMismatch) ∈ log result.2) /\
    (count_distinct_tagid srows <> count_distinct_tagid trows ->
     (WARNING, TagCountMismatch (count_distinct_tagid srows) (count_distinct_tagid trows))
       ∈ log result.2).
Proof.
  split; [apply reads_only_validate_migration|].
  intros srows trows Hsrc Htgt result. subst result.
  rewrite (validate_migration_run _ _ _ _ _ _ Hsrc Htgt). cbn [fst snd statements log].
  split; [reflexivity|]. split.
  { rewrite drop_app_length. repeat constructor. }
  repeat split; intros Hne; rewrite elem_of_app; right.
  - unfold count_verdict. rewrite decide_False by exact Hne. set_solver.
  - unfold range_verdict. rewrite decide_False by exact Hne. set_solver.
  - unfold tag_verdict. rewrite decide_False by exact Hne. set_solver.
Qed.

(** ** The cases of one pass *)

Section Pass.

Variable conflict : HistRecord -> HistRecord -> bool.
Variable local_day : Z -> option Z.
Variable self : HistorianMigration.
Variables source_table target_table : string.

Let S : TableRef := (source_conn self, source_table).
Let T : TableRef := (target_conn self, target_table).

Lemma loop_body_spec max_ts current_ts total batch_num w :
  pass_spec conflict local_day self source_table target_table current_ts
    (Z.min (current_ts + batch_interval) max_ts) total w
    (loop_body conflict local_day self source_table target_table max_ts current_ts
       total batch_num w).
Proof.
  rewrite loop_body_run, migrate_batch_run. cbv zeta. fold S T.
  destruct (tables w !! S) as [srows|] eqn:Hsrc.
  - destruct (window_rows current_ts _ srows) as [|r rest] eqn:Hwin.
    + destruct (decide (0 > 0)) as [Hgt|_]; [lia|]. rewrite Z.add_0_r.
      eapply pass_empty; eauto.
    + destruct (tables w !! T) as [trows|] eqn:Htgt.
      * destruct (decide (Z.of_nat (length (r :: rest)) > 0)) as [_|Hle];
          [|simpl length in Hle; lia].
        assert (Hne : window_rows current_ts
                        (Z.min (current_ts + batch_interval) max_ts) srows <> [])
          by (rewrite Hwin; discriminate).
        pose proof (pass_written conflict local_day self source_table target_table
                      current_ts (Z.min (current_ts + batch_interval) max_ts)
                      total w srows trows) as Hw.
        rewrite Hwin in Hw.
        destruct (local_day current_ts) as [day|]; apply Hw; auto; discriminate.
      * eapply pass_no_target; eauto. rewrite Hwin. discriminate.
  - apply pass_no_source; auto.
Qed.

End Pass.

(** ** The time range *)

Lemma foldl_min_spec (rest : list HistRecord) :
  forall a,
    foldl (fun acc x => Z.min acc (t_stamp x)) a rest <= a /\
    forall r, r ∈ rest -> foldl (fun acc x => Z.min acc (t_stamp x)) a rest <= t_stamp r.
Proof.
  induction rest as [|x rest IH]; intros a; simpl.
  - split; [lia|]. intros r Hr. inversion Hr.
  - destruct (IH (Z.min a (t_stamp x))) as [Hle Hall]. split; [lia|].
    intros r Hr. apply elem_of_cons in Hr as [->|Hr]; [lia|]. apply Hall, Hr.
Qed.

Lemma foldl_max_spec (rest : list HistRecord) :
  forall a,
    a <= foldl (fun acc x => Z.max acc (t_stamp x)) a rest /\
    (forall r, r ∈ rest -> t_stamp r <= foldl (fun acc x => Z.max acc (t_stamp x)) a rest) /\
    (foldl (fun acc x => Z.max acc (t_stamp x)) a rest = a \/
     exists r, r ∈ rest /\ t_stamp r = foldl (fun acc x => Z.max acc (t_stamp x)) a rest).
Proof.
  induction rest as [|x rest IH]; intros a; simpl.
  - split; [lia|]. split; [|left; reflexivity]. intros r Hr. inversion Hr.
  - destruct (IH (Z.max a (t_stamp x))) as (Hge & Hall & Hhit).
    split; [lia|]. split.
    + intros r Hr. apply elem_of_cons in Hr as [->|Hr]; [lia|]. apply Hall, Hr.
    + destruct Hhit as [Heq|(r & Hr & Heq)].
      * destruct (Z.max_spec a (t_stamp x)) as [[_ Hm]|[_ Hm]]; rewrite Hm in Heq.
        -- right. exists x. split; [left|]. rewrite Hm. symmetry. exact Heq.
        -- left. rewrite Hm. exact Heq.
      * right. exists r. split; [right; exact Hr|exact Heq].
Qed.

Lemma min_t_stamp_le rows min_ts r :
  min_t_stamp rows = Some min_ts -> r ∈ rows -> min_ts <= t_stamp r.
Proof.
  destruct rows as [|x rest]; [discriminate|].
  unfold min_t_stamp, agg. intros [= <-] Hr.
  destruct (foldl_min_spec rest (t_stamp x)) as [Hle Hall].
  apply elem_of_cons in Hr as [->|Hr]; [exact Hle|apply Hall, Hr].
Qed.

Lemma max_t_stamp_ge rows max_ts r :
  max_t_stamp rows = Some max_ts -> r ∈ rows -> t_stamp r <= max_ts.
Proof.
  destruct rows as [|x rest]; [discriminate|].
  unfold max_t_stamp, agg. intros [= <-] Hr.
  destruct (foldl_max_spec rest (t_stamp x)) as (Hge & Hall & _).
  apply elem_of_cons in Hr as [->|Hr]; [exact Hge|apply Hall, Hr].
Qed.

(** Some row carries the maximum. *)
Lemma max_t_stamp_attained rows max_ts :
  max_t_stamp rows = Some max_ts -> exists r, r ∈ rows /\ t_stamp r = max_ts.
Proof.
  destruct rows as [|x rest]; [discriminate|].
  unfold max_t_stamp, agg. intros [= <-].
  destruct (foldl_max_spec rest (t_stamp x)) as (_ & _ & [Heq|(r & Hr & Heq)]).
  - exists x. split; [left|symmetry; exact Heq].
  - exists r. split; [right; exact Hr|exact Heq].
Qed.

Lemma min_le_max_t_stamp rows min_ts max_ts :
  min_t_stamp rows = Some min_ts -> max_t_stamp rows = Some max_ts -> min_ts <= max_ts.
Proof.
  intros Hmin Hmax.
  destruct (max_t_stamp_attained _ _ Hmax) as (r & Hr & <-).
  eapply min_t_stamp_le; eassumption.
Qed.

Lemma min_t_stamp_nonempty rows :
  rows <> [] -> is_Some (min_t_stamp rows) /\ is_Some (max_t_stamp rows).
Proof. destruct rows; [congruence|]. intros _. split; eexists; reflexivity. Qed.

(** ** What the run reports *)

Section Count.

Variable conflict : HistRecord -> HistRecord -> bool.
Variable local_day : Z -> option Z.
Variable self : HistorianMigration.
Variables source_table target_table : string.

(** The source rows and their range when the run starts. *)
Variable srows : list HistRecord.
Variables min_ts max_ts : Z.
Hypothesis days_defined : forall t, min_ts <= t < max_ts -> is_Some (local_day t).

Local Abbreviation counting_here :=
  (counting self source_table target_table srows min_ts max_ts).

Lemma window_rows_agree current_ts end_ts rows :
  filter (not_before current_ts) rows = filter (not_before current_ts) srows ->
  length (window_rows current_ts end_ts rows)
  = length (filter (in_window current_ts end_ts) srows).
Proof.
  intros Hsame. rewrite window_rows_length.
  rewrite <- (filter_window_not_before current_ts current_ts end_ts rows) by lia.
  rewrite Hsame, filter_window_not_before by lia. reflexivity.
Qed.

Lemma window_rows_before current_ts end_ts rows :
  Forall (fun r => ~ not_before end_ts r) (window_rows current_ts end_ts rows).
Proof.
  apply Forall_forall. intros r Hr.
  apply window_rows_elem in Hr as [[_ Hlt] _]. unfold not_before. lia.
Qed.

Lemma counting_pass current_ts total batch_num w :
  counting_here current_ts total batch_num w -> current_ts < max_ts ->
  match loop_body conflict local_day self source_table target_table max_ts
          current_ts total batch_num w with
  | (Return total', w') =>
      counting_here (Z.min (current_ts + batch_interval) max_ts) total' (batch_num + 1) w'
  | (Raise e, w') => False
  end.
Proof.
  intros (Hrange & Htotal & (rows & Hsrc & Hsame) & [trows Htgt]) Hlt.
  unfold counting.
  assert (Hend : current_ts < Z.min (current_ts + batch_interval) max_ts <= max_ts)
    by (unfold batch_interval; lia).
  set (end_ts := Z.min (current_ts + batch_interval) max_ts) in *.
  pose proof (window_rows_agree current_ts end_ts rows Hsame) as Hlen.
  pose proof (filter_window_split min_ts current_ts end_ts srows
                ltac:(lia) ltac:(lia)) as Hsplit.
  pose proof (filter_not_before_mono current_ts end_ts srows rows
                ltac:(lia) Hsame) as Hsame'.
  pose proof (loop_body_spec conflict local_day self source_table target_table
                max_ts current_ts total batch_num w) as Hpass.
  fold end_ts in Hpass.
  destruct Hpass as [w' Hnone _ | rows0 w' Hsrc0 Hwin Htab _
                    | rows0 w' _ _ Hnone _ | rows0 trows0 w' Hsrc0 Hne Htgt0 Htab].
  - rewrite Hsrc in Hnone. discriminate.
  - rewrite Hsrc in Hsrc0. injection Hsrc0 as <-.
    rewrite Hwin in Hlen. simpl in Hlen.
    repeat split; try lia.
    + exists rows. rewrite Htab. split; assumption.
    + rewrite Htab. eauto.
  - rewrite Htgt in Hnone. discriminate.
  - rewrite Hsrc in Hsrc0. injection Hsrc0 as <-.
    rewrite Htgt in Htgt0. injection Htgt0 as <-.
    destruct (days_defined current_ts ltac:(lia)) as [day ->].
    repeat split; try lia.
    + rewrite Htab.
      destruct (decide ((target_conn self, target_table)
                        = (source_conn self, source_table))) as [Heq|Hneq].
      * rewrite Heq, lookup_insert_eq. eexists. split; [reflexivity|].
        rewrite Heq, Hsrc in Htgt. injection Htgt as ->.
        rewrite insert_rows_filter by apply window_rows_before.
        exact Hsame'.
      * rewrite lookup_insert_ne by exact Hneq. exists rows. split; assumption.
    + rewrite Htab, lookup_insert_eq. eauto.
Qed.

Lemma migrate_loop_counts w :
  counting_here min_ts 0 0 w ->
  (migrate_loop conflict local_day self source_table target_table max_ts
     min_ts 0 0 w).1
  = Return (Z.of_nat (length (filter (in_window min_ts max_ts) srows))).
Proof.
  intros Hstart.
  apply (migrate_loop_rule conflict local_day self source_table target_table max_ts
           counting_here
           (fun res => res.1
              = Return (Z.of_nat (length (filter (in_window min_ts max_ts) srows)))));
    [| |exact Hstart].
  - intros current_ts total batch_num w0 (Hrange & -> & _) Hge.
    replace current_ts with max_ts by lia. reflexivity.
  - intros current_ts total batch_num w0 Hinv Hlt.
    pose proof (counting_pass _ _ _ _ Hinv Hlt) as Hpass.
    destruct (loop_body _ _ _ _ _ _ _ _ _ _) as [[total'|e] w']; [exact Hpass|contradiction].
Qed.

End Count.

(** C9. [migrate_batch] hands back the number of rows it read from the
    window, whatever the INSERT did with them; and the total of
    [migrate_all] is the number of source rows with
    [min_ts <= t_stamp < max_ts], the rows of the windows it visited,
    whatever rows the target already held and whatever its constraints
    skip.  (The run is assumed to find both tables, a source with rows,
    and window starts that the log line can format as a date.) *)
Theorem migrate_all_reports_rows_read conflict local_day self
    source_table target_table w srows trows min_ts max_ts :
  tables w !! (source_conn self, source_table) = Some srows ->
  tables w !! (target_conn self, target_table) = Some trows ->
  min_t_stamp srows = Some min_ts ->
  max_t_stamp srows = Some max_ts ->
  (forall t, min_ts <= t < max_ts -> is_Some (local_day t)) ->
  (forall start_ts end_ts,
     (migrate_batch conflict self start_ts end_ts source_table target_table w).1
     = Return (Z.of_nat (length (filter (in_window start_ts end_ts) srows)))) /\
  (migrate_all conflict local_day self source_table target_table w).1
  = Return (Z.of_nat (length (filter (in_window min_ts max_ts) srows))).
Proof.
  intros Hsrc Htgt Hmin Hmax Hdays. split.
  - intros start_ts end_ts. rewrite migrate_batch_run. cbv zeta.
    rewrite Hsrc, Htgt, <- window_rows_length.
    destruct (window_rows start_ts end_ts srows); reflexivity.
  - rewrite migrate_all_run. cbv zeta. rewrite Hsrc, Hmin, Hmax.
    pose proof (migrate_loop_counts conflict local_day self source_table target_table
                  srows min_ts max_ts Hdays) as Hloop.
    match goal with
    | |- context [migrate_loop _ _ _ _ _ _ _ _ _ ?w0] => specialize (Hloop w0)
    end.
    destruct (migrate_loop _ _ _ _ _ _ _ _ _ _) as [[total|e] w'];
      simpl in *; apply Hloop.
    all: pose proof (min_le_max_t_stamp _ _ _ Hmin Hmax);
      unfold counting; simpl; repeat split; try lia; eauto.
    all: rewrite filter_window_empty; reflexivity.
Qed.

(** ** Running twice *)

Lemma extends_target_same T w w' : tables w' = tables w -> extends_target T w w'.
Proof.
  intros Heq. unfold extends_target. rewrite Heq. split; [reflexivity|].
  destruct (tables w !! T) as [trows|]; [|reflexivity].
  exists trows. split; reflexivity.
Qed.

Lemma extends_target_trans T w1 w2 w3 :
  extends_target T w1 w2 -> extends_target T w2 w3 -> extends_target T w1 w3.
Proof.
  intros [Hothers12 Htgt12] [Hothers23 Htgt23]. split.
  - intros u Hu. rewrite Hothers23, Hothers12 by exact Hu. reflexivity.
  - destruct (tables w1 !! T) as [trows1|].
    + destruct Htgt12 as (trows2 & Hlook2 & Hpre12). rewrite Hlook2 in Htgt23.
      destruct Htgt23 as (trows3 & Hlook3 & Hpre23).
      exists trows3. split; [exact Hlook3|]. etrans; eassumption.
    + rewrite Htgt12 in Htgt23. exact Htgt23.
Qed.

Section Twice.

Variable conflict : HistRecord -> HistRecord -> bool.
Variable local_day : Z -> option Z.
Variable self : HistorianMigration.
Variables source_table target_table : string.

Lemma pass_extends_target current_ts end_ts total w res :
  pass_spec conflict local_day self source_table target_table
    current_ts end_ts total w res ->
  extends_target (target_conn self, target_table) w res.2.
Proof.
  intros [w' _ Htab | rows w' _ _ Htab _ | rows w' _ _ _ Htab
         | rows trows w' _ _ Htgt Htab]; simpl;
    try (apply extends_target_same; exact Htab).
  split.
  - intros u Hu. rewrite Htab, lookup_insert_ne by congruence. reflexivity.
  - rewrite Htgt, Htab, lookup_insert_eq.
    eexists. split; [reflexivity|]. apply insert_rows_prefix.
Qed.

Lemma migrate_loop_extends_target max_ts current_ts total batch_num w :
  extends_target (target_conn self, target_table) w
    (migrate_loop conflict local_day self source_table target_table max_ts
       current_ts total batch_num w).2.
Proof.
  apply (migrate_loop_rule conflict local_day self source_table target_table max_ts
           (fun _ _ _ w' => extends_target (target_conn self, target_table) w w')
           (fun res => extends_target (target_conn self, target_table) w res.2)).
  - intros _ ? _ w' Hext _. exact Hext.
  - intros cur tot bn w' Hext _.
    pose proof (pass_extends_target _ _ _ _ _
                  (loop_body_spec conflict local_day self source_table target_table
                     max_ts cur tot bn w')) as Hpass.
    destruct (loop_body _ _ _ _ _ _ _ _ _ _) as [[tot'|e] w'']; simpl in *;
      eapply extends_target_trans; eassumption.
  - apply extends_target_same. reflexivity.
Qed.

Hypothesis conflict_refl : forall r, conflict r r = true.

(** A table migrated into itself: every row read is already there. *)
Lemma covered_by_itself (rows : list HistRecord) r : r ∈ rows -> covered conflict rows r.
Proof.
  intros Hr. unfold covered. apply existsb_exists.
  exists r. split; [apply list_elem_of_In, Hr|apply conflict_refl].
Qed.

Lemma migrate_loop_into_itself max_ts current_ts total batch_num w :
  (source_conn self, source_table) = (target_conn self, target_table) ->
  tables (migrate_loop conflict local_day self source_table target_table max_ts
            current_ts total batch_num w).2 = tables w.
Proof.
  intros Hsame.
  apply (migrate_loop_rule conflict local_day self source_table target_table max_ts
           (fun _ _ _ w' => tables w' = tables w)
           (fun res => tables res.2 = tables w)).
  - intros _ ? _ w' Heq _. exact Heq.
  - intros cur tot bn w' Heq _.
    pose proof (loop_body_spec conflict local_day self source_table target_table
                  max_ts cur tot bn w') as Hpass.
    destruct Hpass as [w'' _ Htab | rows w'' _ _ Htab _ | rows w'' _ _ _ Htab
                      | rows trows w'' Hsrc _ Htgt Htab].
    1-3: simpl; congruence.
    assert (Hidle : tables w'' = tables w).
    { rewrite Htab, <- Heq. rewrite Hsame, Htgt in Hsrc. injection Hsrc as <-.
      rewrite insert_rows_covered.
      - apply insert_id, Htgt.
      - apply Forall_forall. intros r Hr. apply covered_by_itself.
        apply window_rows_elem in Hr as [_ Hr]. exact Hr. }
    destruct (local_day cur); simpl; exact Hidle.
  - reflexivity.
Qed.

(** The second run next to the first, window by window.  [w] is where the
    first run stands, [w2] where the second one does: the second sees the
    source as the first did, and its target is the one the first run ends
    with. *)
Lemma second_loop_idle max_ts :
  (source_conn self, source_table) <> (target_conn self, target_table) ->
  forall current_ts total batch_num w total2 batch_num2 w2,
    tables w2 !! (source_conn self, source_table)
    = tables w !! (source_conn self, source_table) ->
    tables w2 !! (target_conn self, target_table)
    = tables (migrate_loop conflict local_day self source_table target_table max_ts
                current_ts total batch_num w).2 !! (target_conn self, target_table) ->
    tables (migrate_loop conflict local_day self source_table target_table max_ts
              current_ts total2 batch_num2 w2).2 = tables w2.
Proof.
  intros Hdiff current_ts.
  induction current_ts as [current_ts IH] using (window_induction max_ts).
  intros total batch_num w total2 batch_num2 w2 Hsrc Htgt.
  rewrite migrate_loop_step in Htgt. rewrite migrate_loop_step.
  destruct (decide (current_ts < max_ts)) as [Hlt|_]; [|reflexivity].
  specialize (IH Hlt).
  pose proof (loop_body_spec conflict local_day self source_table target_table
                max_ts current_ts total batch_num w) as Hpass.
  pose proof (loop_body_spec conflict local_day self source_table target_table
                max_ts current_ts total2 batch_num2 w2) as Hpass2.
  revert Htgt.
  destruct Hpass as [w' Hs Htab | rows w' Hs Hwin Htab _ | rows w' Hs Hwin Ht Htab
                    | rows trows w' Hs Hwin Ht Htab];
    destruct Hpass2 as [w2' Hs2 Htab2 | rows2 w2' Hs2 Hwin2 Htab2 _
                       | rows2 w2' Hs2 Hwin2 Ht2 Htab2
                       | rows2 trows2 w2' Hs2 Hwin2 Ht2 Htab2];
    intros Htgt; simpl in Htgt; simpl;
    rewrite Hsrc, Hs in Hs2; try discriminate Hs2;
    try (injection Hs2 as <-); try congruence.
  - (* both windows empty *)
    rewrite (IH total (batch_num + 1) w'); [exact Htab2| |].
    + rewrite Htab, Htab2. exact Hsrc.
    + rewrite Htab2. exact Htgt.
  - (* both runs write *)
    set (end_ts := Z.min (current_ts + batch_interval) max_ts) in *.
    set (records := window_rows current_ts end_ts rows) in *.
    assert (Hcov : Forall (covered conflict trows2) records).
    { pose proof (insert_rows_covers conflict conflict_refl records trows) as Hnow.
      assert (Hw' : tables w' !! (target_conn self, target_table)
                    = Some (insert_rows conflict trows records))
        by (rewrite Htab, lookup_insert_eq; reflexivity).
      destruct (local_day current_ts).
      - pose proof (migrate_loop_extends_target max_ts end_ts
                      (total + Z.of_nat (length records)) (batch_num + 1) w')
          as [_ Hext].
        rewrite Hw' in Hext. destruct Hext as (trows'' & Hlook & Hpre).
        simpl in Htgt. rewrite Hlook, Ht2 in Htgt. injection Htgt as ->.
        eapply Forall_impl; [exact Hnow|].
        intros r. apply covered_prefix, Hpre.
      - simpl in Htgt. rewrite Hw', Ht2 in Htgt. injection Htgt as ->. exact Hnow. }
    assert (Hidle : tables w2' = tables w2).
    { rewrite Htab2, insert_rows_covered by exact Hcov. apply insert_id, Ht2. }
    destruct (local_day current_ts); simpl in *; [|exact Hidle].
    rewrite (IH (total + Z.of_nat (length records)) (batch_num + 1) w');
      [exact Hidle| |].
    + rewrite Hidle, Htab, lookup_insert_ne by congruence. exact Hsrc.
    + rewrite Hidle. exact Htgt.
Qed.

End Twice.

Lemma migrate_all_tables conflict local_day self source_table target_table w :
  tables (migrate_all conflict local_day self source_table target_table w).2 =
  match tables w !! (source_conn self, source_table) with
  | Some srows =>
      match min_t_stamp srows, max_t_stamp srows with
      | Some min_ts, Some max_ts =>
          tables (migrate_loop conflict local_day self source_table target_table
                    max_ts min_ts 0 0
                    (loop_entry (source_conn self, source_table) srows w)).2
      | _, _ => tables w
      end
  | None => tables w
  end.
Proof.
  rewrite migrate_all_run. cbv zeta. unfold loop_entry.
  destruct (tables w !! (source_conn self, source_table)) as [srows|]; [|reflexivity].
  destruct (min_t_stamp srows), (max_t_stamp srows); try reflexivity.
  simpl. destruct (migrate_loop _ _ _ _ _ _ _ _ _ _) as [[total|e] w']; reflexivity.
Qed.

(** C6. With a target whose constraints reject a row that is already
    stored ([conflict r r] for every row), a second [migrate_all] right
    after a first one leaves every table as the first run left it: the
    target has the same rows, hence the same row count.  This holds
    whatever the first run did, also when it raised. *)
Theorem migrate_all_twice_adds_nothing conflict local_day self
    source_table target_table w :
  (forall r, conflict r r = true) ->
  let w1 := (migrate_all conflict local_day self source_table target_table w).2 in
  let w2 := (migrate_all conflict local_day self source_table target_table w1).2 in
  tables w2 = tables w1 /\
  count_rows <$> tables w2 !! (target_conn self, target_table)
  = count_rows <$> tables w1 !! (target_conn self, target_table).
Proof.
  intros Hrefl w1 w2.
  assert (Hsame : tables w2 = tables w1); [|split; [exact Hsame|rewrite Hsame; reflexivity]].
  subst w2. rewrite migrate_all_tables.
  assert (Hw1 := migrate_all_tables conflict local_day self source_table target_table w).
  fold w1 in Hw1.
  destruct (tables w !! (source_conn self, source_table)) as [srows|] eqn:Hsrc;
    [|rewrite Hw1, Hsrc; reflexivity].
  destruct (min_t_stamp srows) as [min_ts|] eqn:Hmin;
    [|rewrite Hw1, Hsrc, Hmin; reflexivity].
  destruct (max_t_stamp srows) as [max_ts|] eqn:Hmax;
    [|rewrite Hw1, Hsrc, Hmin, Hmax; reflexivity].
  destruct (decide ((source_conn self, source_table) = (target_conn self, target_table)))
    as [Halias|Hdiff].
  - rewrite (migrate_loop_into_itself conflict local_day self source_table target_table
               Hrefl _ _ _ _ _ Halias) in Hw1.
    simpl in Hw1. rewrite Hw1, Hsrc, Hmin, Hmax.
    rewrite (migrate_loop_into_itself conflict local_day self source_table target_table
               Hrefl _ _ _ _ _ Halias).
    simpl. exact Hw1.
  - pose proof (migrate_loop_extends_target conflict local_day self source_table
                  target_table max_ts min_ts 0 0
                  (loop_entry (source_conn self, source_table) srows w)) as [Hothers _].
    specialize (Hothers _ Hdiff). rewrite <- Hw1 in Hothers. simpl in Hothers.
    rewrite Hothers, Hsrc, Hmin, Hmax.
    rewrite (second_loop_idle conflict local_day self source_table target_table
               Hrefl max_ts Hdiff min_ts 0 0
               (loop_entry (source_conn self, source_table) srows w)).
    + reflexivity.
    + simpl. exact Hothers.
    + simpl. rewrite Hw1. reflexivity.
Qed.

(** ** The windows that are asked for *)

Section Windows.

Variable conflict : HistRecord -> HistRecord -> bool.
Variable local_day : Z -> option Z.
Variable self : HistorianMigration.
Variables source_table target_table : string.

(** A pass asks for its window first, and for no other window. *)
Lemma loop_body_statements max_ts current_ts total batch_num w :
  exists more,
    statements (loop_body conflict local_day self source_table target_table max_ts
                  current_ts total batch_num w).2
    = statements w
      ++ SelectWindow (source_conn self, source_table) current_ts
           (Z.min (current_ts + batch_interval) max_ts) :: more /\
    Forall (fun s => ~ is_select_window s) more.
Proof.
  rewrite loop_body_run, migrate_batch_run. cbv zeta.
  destruct (tables w !! (source_conn self, source_table)) as [srows|].
  - destruct (window_rows current_ts _ srows) as [|r rest].
    + destruct (decide (0 > 0)); [lia|]. exists []. split; [reflexivity|constructor].
    + destruct (tables w !! (target_conn self, target_table)) as [trows|].
      * destruct (decide (Z.of_nat (length (r :: rest)) > 0)), (local_day current_ts);
          simpl; eexists; (split; [rewrite <- !app_assoc; reflexivity|]);
          repeat constructor; simpl; tauto.
      * simpl. eexists. split; [rewrite <- !app_assoc; reflexivity|].
        repeat constructor; simpl; tauto.
  - exists []. split; [reflexivity|constructor].
Qed.

(** Every window the loop asks for starts below [max_ts] and ends one
    [batch_interval] later, or at [max_ts] if that comes first. *)
Lemma migrate_loop_windows max_ts current_ts total batch_num w t start_ts end_ts :
  SelectWindow t start_ts end_ts
    ∈ statements (migrate_loop conflict local_day self source_table target_table
                    max_ts current_ts total batch_num w).2 ->
  SelectWindow t start_ts end_ts ∈ statements w \/
  (t = (source_conn self, source_table) /\ current_ts <= start_ts < max_ts /\
   end_ts = Z.min (start_ts + batch_interval) max_ts).
Proof.
  set (ok := fun w' : World =>
    SelectWindow t start_ts end_ts ∈ statements w' ->
    SelectWindow t start_ts end_ts ∈ statements w \/
    (t = (source_conn self, source_table) /\ current_ts <= start_ts < max_ts /\
     end_ts = Z.min (start_ts + batch_interval) max_ts)).
  apply (migrate_loop_rule conflict local_day self source_table target_table max_ts
           (fun cur _ _ w' => current_ts <= cur /\ ok w')
           (fun res => ok res.2)).
  - intros _ ? _ w' [_ Hok] _. exact Hok.
  - intros cur tot bn w' [Hle Hok] Hlt.
    destruct (loop_body_statements max_ts cur tot bn w') as (more & Hstm & Hmore).
    assert (Hok' : ok (loop_body conflict local_day self source_table target_table
                         max_ts cur tot bn w').2).
    { unfold ok. rewrite Hstm. rewrite elem_of_app, elem_of_cons.
      intros [Hold|[Hnew|Hin]].
      - apply Hok, Hold.
      - injection Hnew as -> -> ->. right. repeat split; lia.
      - rewrite Forall_forall in Hmore. destruct (Hmore _ Hin). exact I. }
    destruct (loop_body _ _ _ _ _ _ _ _ _ _) as [[tot'|e] w'']; simpl in *;
      [split; [unfold batch_interval; lia|]|]; exact Hok'.
  - split; [lia|]. unfold ok. auto.
Qed.

Lemma migrate_loop_batch_size size max_ts :
  forall current_ts total batch_num w,
    migrate_loop conflict local_day (with_batch_size size self) source_table
      target_table max_ts current_ts total batch_num w
    = migrate_loop conflict local_day self source_table target_table max_ts
        current_ts total batch_num w.
Proof.
  intros current_ts.
  induction current_ts as [current_ts IH] using (window_induction max_ts).
  intros total batch_num w. rewrite !migrate_loop_step.
  destruct (decide (current_ts < max_ts)) as [Hlt|_]; [|reflexivity].
  change (loop_body conflict local_day (with_batch_size size self))
    with (loop_body conflict local_day self).
  destruct (loop_body _ _ _ _ _ _ _ _ _ _) as [[total'|e] w']; [|reflexivity].
  apply IH, Hlt.
Qed.

End Windows.

Lemma migrate_all_windows conflict local_day self source_table target_table w
    t start_ts end_ts :
  SelectWindow t start_ts end_ts
    ∈ statements (migrate_all conflict local_day self source_table target_table w).2 ->
  SelectWindow t start_ts end_ts ∈ statements w \/
  exists srows min_ts max_ts,
    tables w !! (source_conn self, source_table) = Some srows /\
    min_t_stamp srows = Some min_ts /\ max_t_stamp srows = Some max_ts /\
    t = (source_conn self, source_table) /\
    min_ts <= start_ts < max_ts /\
    end_ts = Z.min (start_ts + batch_interval) max_ts.
Proof.
  rewrite migrate_all_run. cbv zeta.
  destruct (tables w !! (source_conn self, source_table)) as [srows|] eqn:Hsrc.
  - destruct (min_t_stamp srows) as [min_ts|] eqn:Hmin;
      [destruct (max_t_stamp srows) as [max_ts|] eqn:Hmax|].
    + intros Hin.
      assert (Hloop : SelectWindow t start_ts end_ts ∈ statements
                (migrate_loop conflict local_day self source_table target_table
                   max_ts min_ts 0 0
                   (loop_entry (source_conn self, source_table) srows w)).2).
      { unfold loop_entry. rewrite Hmin, Hmax.
        destruct (migrate_loop _ _ _ _ _ _ _ _ _ _) as [[total|e] w']; exact Hin. }
      apply migrate_loop_windows in Hloop as [Hold|(-> & Hrange & ->)].
      * simpl in Hold. rewrite elem_of_app, list_elem_of_singleton in Hold.
        destruct Hold as [Hold|Hnew]; [left; exact Hold|discriminate Hnew].
      * right. exists srows, min_ts, max_ts. repeat split; auto; lia.
    + simpl. rewrite elem_of_app, list_elem_of_singleton.
      intros [Hold|Hnew]; [left; exact Hold|discriminate Hnew].
    + simpl. rewrite elem_of_app, list_elem_of_singleton.
      intros [Hold|Hnew]; [left; exact Hold|discriminate Hnew].
  - simpl. rewrite elem_of_app, list_elem_of_singleton.
    intros [Hold|Hnew]; [left; exact Hold|discriminate Hnew].
Qed.

(** No window that [migrate_all] asks for reaches MAX(t_stamp): a row that
    carries the maximum is in none of them. *)
Lemma migrate_all_windows_stop_short conflict local_day self source_table target_table
    w srows max_ts t start_ts end_ts r :
  tables w !! (source_conn self, source_table) = Some srows ->
  max_t_stamp srows = Some max_ts ->
  SelectWindow t start_ts end_ts
    ∈ statements (migrate_all conflict local_day self source_table target_table w).2 ->
  SelectWindow t start_ts end_ts ∉ statements w ->
  t_stamp r = max_ts ->
  ~ in_window start_ts end_ts r.
Proof.
  intros Hsrc Hmax Hin Hnew Hr [_ Hlt].
  apply migrate_all_windows in Hin
    as [Hold|(srows' & min_ts & max_ts' & Hsrc' & _ & Hmax' & _ & _ & ->)];
    [contradiction|].
  rewrite Hsrc in Hsrc'. injection Hsrc' as <-.
  rewrite Hmax in Hmax'. injection Hmax' as <-. lia.
Qed.

(** *** The windows tile [[min_ts, max_ts)] *)

Lemma chained_snoc start_ts wins stop_ts end_ts :
  chained start_ts wins stop_ts -> stop_ts < end_ts ->
  chained start_ts (wins ++ [(stop_ts, end_ts)]) end_ts.
Proof.
  revert start_ts. induction wins as [|win rest IH]; intros start_ts; simpl.
  - intros -> Hlt. auto.
  - intros (Hs & Hlt & Hrest) He. repeat split; auto.
Qed.

Lemma chained_le start_ts wins stop_ts :
  chained start_ts wins stop_ts -> start_ts <= stop_ts.
Proof.
  revert start_ts. induction wins as [|win rest IH]; intros start_ts; simpl.
  - lia.
  - intros (Hs & Hlt & Hrest). apply IH in Hrest. lia.
Qed.

(** In a chain, a time between the two ends lies in exactly one window, and
    a time outside lies in none. *)
Lemma chained_holds_once start_ts wins stop_ts t :
  chained start_ts wins stop_ts ->
  length (filter (holds t) wins)
  = if decide (start_ts <= t < stop_ts) then 1%nat else 0%nat.
Proof.
  revert start_ts. induction wins as [|win rest IH]; intros start_ts; simpl.
  - intros ->. destruct (decide (start_ts <= t < start_ts)); [lia|reflexivity].
  - intros (Hs & Hlt & Hrest).
    pose proof (chained_le _ _ _ Hrest) as Hle.
    rewrite filter_cons, <- Hs. specialize (IH _ Hrest).
    unfold holds at 1.
    destruct (decide (win.1 <= t < win.2)), (decide (win.1 <= t < stop_ts)),
      (decide (win.2 <= t < stop_ts)); simpl; rewrite IH; lia.
Qed.

Lemma asked_windows_app stmts stmts' :
  asked_windows (stmts ++ stmts') = asked_windows stmts ++ asked_windows stmts'.
Proof. apply omap_app. Qed.

Lemma asked_windows_none stmts :
  Forall (fun s => ~ is_select_window s) stmts -> asked_windows stmts = [].
Proof.
  induction 1 as [|s stmts Hs _ IH]; [reflexivity|].
  unfold asked_windows in *.
  destruct s; simpl in *; try exact IH. tauto.
Qed.

(** The windows the loop asks for form a chain that starts at [current_ts]
    and stays below [max_ts]; it reaches [max_ts] when the loop returns. *)
Lemma migrate_loop_chain conflict local_day self source_table target_table
    max_ts current_ts total batch_num w :
  current_ts <= max_ts ->
  let result := migrate_loop conflict local_day self source_table target_table
                  max_ts current_ts total batch_num w in
  exists wins stop_ts,
    asked_windows (statements result.2) = asked_windows (statements w) ++ wins /\
    chained current_ts wins stop_ts /\ stop_ts <= max_ts /\
    (forall total', result.1 = Return total' -> stop_ts = max_ts).
Proof.
  intros Hle result. subst result.
  apply (migrate_loop_rule conflict local_day self source_table target_table max_ts
           (fun cur _ _ w' =>
              cur <= max_ts /\
              exists wins,
                asked_windows (statements w') = asked_windows (statements w) ++ wins /\
                chained current_ts wins cur)
           (fun res =>
              exists wins stop_ts,
                asked_windows (statements res.2) = asked_windows (statements w) ++ wins /\
                chained current_ts wins stop_ts /\ stop_ts <= max_ts /\
                (forall total', res.1 = Return total' -> stop_ts = max_ts))).
  - intros cur tot bn w' (Hcur & wins & Hasked & Hchain) Hge.
    exists wins, cur. split; [exact Hasked|]. split; [exact Hchain|].
    split; [exact Hcur|]. intros _ _. lia.
  - intros cur tot bn w' (Hcur & wins & Hasked & Hchain) Hlt.
    destruct (loop_body_statements conflict local_day self source_table target_table
                max_ts cur tot bn w') as (more & Hstm & Hmore).
    assert (Hend : cur < Z.min (cur + batch_interval) max_ts <= max_ts)
      by (unfold batch_interval; lia).
    assert (Hasked' :
      asked_windows (statements
        (loop_body conflict local_day self source_table target_table max_ts
           cur tot bn w').2)
      = asked_windows (statements w)
        ++ (wins ++ [(cur, Z.min (cur + batch_interval) max_ts)])).
    { rewrite Hstm, asked_windows_app, Hasked.
      change (SelectWindow (source_conn self, source_table) cur
                (Z.min (cur + batch_interval) max_ts) :: more)
        with ([SelectWindow (source_conn self, source_table) cur
                 (Z.min (cur + batch_interval) max_ts)] ++ more).
      rewrite asked_windows_app, (asked_windows_none more Hmore), app_nil_r.
      rewrite <- app_assoc. reflexivity. }
    pose proof (chained_snoc _ _ _ _ Hchain (proj1 Hend)) as Hchain'.
    destruct (loop_body _ _ _ _ _ _ _ _ _ _) as [[tot'|e] w'']; simpl in *.
    + split; [lia|]. eexists. split; eassumption.
    + exists (wins ++ [(cur, Z.min (cur + batch_interval) max_ts)]),
        (Z.min (cur + batch_interval) max_ts).
      split; [exact Hasked'|]. split; [exact Hchain'|]. split; [lia|discriminate].
  - split; [exact Hle|]. exists []. split; [rewrite app_nil_r; reflexivity|reflexivity].
Qed.

(** On a source with rows, whenever [migrate_all] returns: each time [t] with
    [min_ts <= t < max_ts] lies in exactly one of the windows it asked for,
    and [max_ts] itself, like any later time, lies in none. *)
Lemma migrate_all_tiling conflict local_day self source_table target_table
    w srows min_ts max_ts total :
  tables w !! (source_conn self, source_table) = Some srows ->
  min_t_stamp srows = Some min_ts ->
  max_t_stamp srows = Some max_ts ->
  let result := migrate_all conflict local_day self source_table target_table w in
  result.1 = Return total ->
  exists wins,
    asked_windows (statements result.2) = asked_windows (statements w) ++ wins /\
    chained min_ts wins max_ts /\
    forall t, length (filter (holds t) wins)
              = if decide (min_ts <= t < max_ts) then 1%nat else 0%nat.
Proof.
  intros Hsrc Hmin Hmax result. subst result.
  rewrite migrate_all_run. cbv zeta. rewrite Hsrc, Hmin, Hmax.
  pose proof (migrate_loop_chain conflict local_day self source_table target_table
                max_ts min_ts 0 0
                (loop_entry (source_conn self, source_table) srows w)
                (min_le_max_t_stamp _ _ _ Hmin Hmax)) as Hchain.
  cbv zeta in Hchain. unfold loop_entry in Hchain. rewrite Hmin, Hmax in Hchain.
  destruct Hchain as (wins & stop_ts & Hasked & Hchain & _ & Hstop).
  destruct (migrate_loop _ _ _ _ _ _ _ _ _ _) as [[total'|e] w']; simpl in *;
    [|discriminate].
  intros _. specialize (Hstop _ eq_refl). subst stop_ts.
  exists wins. split; [|split; [exact Hchain|]].
  - rewrite Hasked, asked_windows_app. simpl. rewrite app_nil_r. reflexivity.
  - intros t. apply chained_holds_once, Hchain.
Qed.

(** C10. The width of a window is the constant 86400000: changing
    [batch_size] changes nothing in what [migrate_all], [migrate_batch] and
    [validate_migration] do, and every window that [migrate_all] asks the
    source for ends 86400000 ms after its start, or at MAX(t_stamp) if that
    comes first. *)
Theorem window_width_is_fixed conflict local_day self size source_table target_table w :
  batch_interval = 86400000 /\
  migrate_all conflict local_day (with_batch_size size self) source_table target_table w
  = migrate_all conflict local_day self source_table target_table w /\
  (forall start_ts end_ts,
     migrate_batch conflict (with_batch_size size self) start_ts end_ts
       source_table target_table w
     = migrate_batch conflict self start_ts end_ts source_table target_table w) /\
  validate_migration (with_batch_size size self) source_table target_table w
  = validate_migration self source_table target_table w /\
  (forall t start_ts end_ts,
     SelectWindow t start_ts end_ts
       ∈ statements (migrate_all conflict local_day self source_table target_table w).2 ->
     SelectWindow t start_ts end_ts ∈ statements w \/
     exists srows min_ts max_ts,
       tables w !! (source_conn self, source_table) = Some srows /\
       min_t_stamp srows = Some min_ts /\ max_t_stamp srows = Some max_ts /\
       t = (source_conn self, source_table) /\
       min_ts <= start_ts < max_ts /\
       end_ts = Z.min (start_ts + 86400000) max_ts).
Proof.
  split; [reflexivity|]. split; [|split; [reflexivity|split; [reflexivity|]]].
  - rewrite !migrate_all_run. cbv zeta.
    change (source_conn (with_batch_size size self)) with (source_conn self).
    destruct (tables w !! (source_conn self, source_table)) as [srows|]; [|reflexivity].
    destruct (min_t_stamp srows), (max_t_stamp srows); try reflexivity.
    rewrite migrate_loop_batch_size. reflexivity.
  - intros t start_ts end_ts. apply migrate_all_windows.
Qed.

(** ** The two ends of the range *)

(** A source whose rows all carry one and the same [t_stamp], a single row
    in particular: the loop body never runs.  The run asks for no window,
    writes nothing and reports 0. *)
Lemma migrate_all_single_instant conflict local_day self source_table target_table
    w srows ts :
  tables w !! (source_conn self, source_table) = Some srows ->
  min_t_stamp srows = Some ts ->
  max_t_stamp srows = Some ts ->
  migrate_all conflict local_day self source_table target_table w
  = (Return 0,
     mkWorld (tables w)
       (statements w ++ [SelectMinMax (source_conn self, source_table)])
       (((log w ++ [(INFO, StartingBatchMigration)])
         ++ [(INFO, TimeRange (Some ts) (Some ts))])
        ++ [(INFO, MigrationComplete 0)])).
Proof.
  intros Hsrc Hmin Hmax.
  rewrite migrate_all_run. cbv zeta. rewrite Hsrc, Hmin, Hmax.
  rewrite migrate_loop_step.
  destruct (decide (ts < ts)); [lia|reflexivity].
Qed.

Lemma migrate_all_single_row conflict local_day self source_table target_table w r :
  tables w !! (source_conn self, source_table) = Some [r] ->
  (migrate_all conflict local_day self source_table target_table w).1 = Return 0 /\
  tables (migrate_all conflict local_day self source_table target_table w).2 = tables w.
Proof.
  intros Hsrc.
  rewrite (migrate_all_single_instant conflict local_day self source_table target_table
             w [r] (t_stamp r) Hsrc eq_refl eq_refl).
  split; reflexivity.
Qed.

(** A source without rows: the aggregates are NULL and the first test of the
    loop condition raises. *)
Lemma migrate_all_empty_source conflict local_day self source_table target_table w :
  tables w !! (source_conn self, source_table) = Some [] ->
  migrate_all conflict local_day self source_table target_table w
  = (Raise TypeError,
     mkWorld (tables w)
       (statements w ++ [SelectMinMax (source_conn self, source_table)])
       ((log w ++ [(INFO, StartingBatchMigration)]) ++ [(INFO, TimeRange None None)])).
Proof.
  intros Hsrc. rewrite migrate_all_run. cbv zeta. rewrite Hsrc. reflexivity.
Qed.

(** ** Runs on concrete tables *)

(** Conjunctions of closed facts about a run, settled by running the model;
    the sides are evaluated one at a time and never unified unevaluated. *)
Ltac by_running := vm_compute; reflexivity.
Ltac each_by_running :=
  repeat match goal with |- _ /\ _ => split; [by_running|] end;
  try by_running.

(** C1. A source with rows at 1000 and 2000: the only window asked for is
    [[1000, 2000)], the run reports one row, and the row at 2000, which
    carries MAX(t_stamp), is not in the target afterwards. *)
Theorem max_row_is_not_migrated :
  let w := two_tables [rec_at 1 1000; rec_at 1 2000] [] in
  let result := migrate_all pk_conflict utc_day me "sqlth_1_data" "sqlth_1_data_ts" w in
  max_t_stamp [rec_at 1 1000; rec_at 1 2000] = Some 2000 /\
  result.1 = Return 1 /\
  asked_windows (statements result.2) = [(1000, 2000)] /\
  tables result.2 !! (0%nat, "sqlth_1_data_ts") = Some [rec_at 1 1000] /\
  rec_at 1 2000 ∉ [rec_at 1 1000].
Proof.
  cbv zeta. each_by_running.
  intros Hin. apply list_elem_of_singleton in Hin. discriminate Hin.
Qed.

(** C2. Rows at 1000, 90000000 and 90000001: two windows are asked for,
    [[1000, 86401000)] and [[86401000, 90000001)]; the second one holds the
    row at 90000000 only, and the run reports 2 rows, not 3. *)
Theorem three_rows_report_two :
  let rows := [rec_at 1 1000; rec_at 1 90000000; rec_at 1 90000001] in
  let w := two_tables rows [] in
  let result := migrate_all pk_conflict utc_day me "sqlth_1_data" "sqlth_1_data_ts" w in
  result.1 = Return 2 /\
  asked_windows (statements result.2) = [(1000, 86401000); (86401000, 90000001)] /\
  window_rows 1000 86401000 rows = [rec_at 1 1000] /\
  window_rows 86401000 90000001 rows = [rec_at 1 90000000] /\
  tables result.2 !! (0%nat, "sqlth_1_data_ts")
  = Some [rec_at 1 1000; rec_at 1 90000000].
Proof. cbv zeta. each_by_running. Qed.

(** C3. A source with the single row at 1000: MIN and MAX coincide, the loop
    body never runs, no window is asked for, the run reports 0 and the
    target stays empty. *)
Theorem single_row_is_not_migrated :
  let w := two_tables [rec_at 1 1000] [] in
  let result := migrate_all pk_conflict utc_day me "sqlth_1_data" "sqlth_1_data_ts" w in
  result.1 = Return 0 /\
  asked_windows (statements result.2) = [] /\
  tables result.2 !! (0%nat, "sqlth_1_data_ts") = Some [].
Proof. cbv zeta. each_by_running. Qed.

(** C4. Rows at 1000, 86401000 and 86402000: the windows asked for are
    [[1000, 86401000)] and [[86401000, 86402000)]; each starts where the one
    before ends, but the row at 86402000 lies in neither. *)
Theorem last_row_is_in_no_window :
  let rows := [rec_at 1 1000; rec_at 1 86401000; rec_at 1 86402000] in
  let w := two_tables rows [] in
  let result := migrate_all pk_conflict utc_day me "sqlth_1_data" "sqlth_1_data_ts" w in
  asked_windows (statements result.2) = [(1000, 86401000); (86401000, 86402000)] /\
  rec_at 1 86402000 ∈ rows /\
  Forall (fun win => ~ in_window win.1 win.2 (rec_at 1 86402000))
    (asked_windows (statements result.2)).
Proof.
  cbv zeta.
  assert (Hwin : asked_windows (statements
            (migrate_all pk_conflict utc_day me "sqlth_1_data" "sqlth_1_data_ts"
               (two_tables [rec_at 1 1000; rec_at 1 86401000; rec_at 1 86402000] [])).2)
          = [(1000, 86401000); (86401000, 86402000)])
    by by_running.
  rewrite Hwin. split; [reflexivity|].
  split; [rewrite !elem_of_cons; right; right; left; reflexivity|].
  repeat constructor; unfold in_window; simpl; lia.
Qed.

(** C5. A source without rows: MIN and MAX are NULL, the loop condition
    compares [None] with [None], and the run raises TypeError instead of
    returning 0. *)
Theorem empty_source_raises :
  let w := two_tables [] [] in
  let result := migrate_all pk_conflict utc_day me "sqlth_1_data" "sqlth_1_data_ts" w in
  result.1 = Raise TypeError /\
  asked_windows (statements result.2) = [] /\
  tables result.2 !! (0%nat, "sqlth_1_data_ts") = Some [].
Proof. cbv zeta. each_by_running. Qed.

(** ** The theorems at work on concrete tables *)

Lemma migrate_all_twice_adds_nothing_witness :
  let w := two_tables [rec_at 1 1000; rec_at 2 1000; rec_at 1 90000000] [] in
  let w1 := (migrate_all pk_conflict utc_day me "sqlth_1_data" "sqlth_1_data_ts" w).2 in
  let w2 := (migrate_all pk_conflict utc_day me "sqlth_1_data" "sqlth_1_data_ts" w1).2 in
  tables w2 = tables w1 /\
  count_rows <$> tables w2 !! (0%nat, "sqlth_1_data_ts")
  = count_rows <$> tables w1 !! (0%nat, "sqlth_1_data_ts").
Proof.
  apply (migrate_all_twice_adds_nothing pk_conflict utc_day me
           "sqlth_1_data" "sqlth_1_data_ts").
  intros r. unfold pk_conflict. apply bool_decide_eq_true. split; reflexivity.
Defined.

Lemma migrate_batch_empty_window_witness :
  migrate_batch pk_conflict me 2000 3000 "sqlth_1_data" "sqlth_1_data_ts"
    (two_tables [rec_at 1 1000] [])
  = (Return 0,
     mkWorld (tables (two_tables [rec_at 1 1000] []))
       [SelectWindow (0%nat, "sqlth_1_data") 2000 3000] []).
Proof.
  apply (migrate_batch_empty_window pk_conflict me 2000 3000
           "sqlth_1_data" "sqlth_1_data_ts" (two_tables [rec_at 1 1000] [])
           [rec_at 1 1000]).
  - vm_compute. reflexivity.
  - vm_compute. reflexivity.
Defined.

Lemma validate_migration_reads_and_warns_witness :
  let w := two_tables [rec_at 1 1000; rec_at 2 2000] [rec_at 1 1000] in
  let result := validate_migration me "sqlth_1_data" "sqlth_1_data_ts" w in
  result.1 = Return tt /\
  (WARNING, RecordCountMismatch 1) ∈ log result.2 /\
  (WARNING, TimestampRangeMismatch) ∈ log result.2 /\
  (WARNING, TagCountMismatch 2 1) ∈ log result.2 /\
  tables result.2 = tables w.
Proof.
  cbv zeta.
  destruct (validate_migration_reads_and_warns me "sqlth_1_data" "sqlth_1_data_ts"
              (two_tables [rec_at 1 1000; rec_at 2 2000] [rec_at 1 1000]))
    as [Hframe Hwarn].
  destruct (Hwarn [rec_at 1 1000; rec_at 2 2000] [rec_at 1 1000])
    as (Hret & _ & Hcount & Hrange & Htags).
  - vm_compute. reflexivity.
  - vm_compute. reflexivity.
  - split; [exact Hret|]. split; [apply Hcount; vm_compute; discriminate|].
    split; [apply Hrange; vm_compute; discriminate|].
    split; [apply Htags; vm_compute; discriminate|exact Hframe].
Defined.

(** A re-run: the target already holds the row of the only window.  The run
    reports one row, and not one row is added. *)
Lemma migrate_all_reports_rows_read_witness :
  let w := two_tables [rec_at 1 1000; rec_at 1 2000] [rec_at 1 1000] in
  let result := migrate_all pk_conflict utc_day me "sqlth_1_data" "sqlth_1_data_ts" w in
  result.1 = Return 1 /\
  tables result.2 !! (0%nat, "sqlth_1_data_ts") = Some [rec_at 1 1000].
Proof.
  cbv zeta. split.
  - apply (migrate_all_reports_rows_read pk_conflict utc_day me
             "sqlth_1_data" "sqlth_1_data_ts"
             (two_tables [rec_at 1 1000; rec_at 1 2000] [rec_at 1 1000])
             [rec_at 1 1000; rec_at 1 2000] [rec_at 1 1000] 1000 2000).
    + vm_compute. reflexivity.
    + vm_compute. reflexivity.
    + reflexivity.
    + reflexivity.
    + intros t _. eexists. reflexivity.
  - vm_compute. reflexivity.
Defined.

Lemma window_width_is_fixed_witness :
  let w := two_tables [rec_at 1 1000; rec_at 1 90000000; rec_at 1 90000001] [] in
  SelectWindow (0%nat, "sqlth_1_data") 86401000 90000001 ∈ statements w \/
  exists srows min_ts max_ts,
    tables w !! (source_conn me, "sqlth_1_data") = Some srows /\
    min_t_stamp srows = Some min_ts /\ max_t_stamp srows = Some max_ts /\
    (0%nat, "sqlth_1_data") = (source_conn me, "sqlth_1_data") /\
    min_ts <= 86401000 < max_ts /\
    90000001 = Z.min (86401000 + 86400000) max_ts.
Proof.
  cbv zeta.
  apply (proj2 (proj2 (proj2 (proj2
           (window_width_is_fixed pk_conflict utc_day me 1 "sqlth_1_data"
              "sqlth_1_data_ts"
              (two_tables [rec_at 1 1000; rec_at 1 90000000; rec_at 1 90000001] [])))))).
  assert (Hrun : statements
            (migrate_all pk_conflict utc_day me "sqlth_1_data" "sqlth_1_data_ts"
               (two_tables [rec_at 1 1000; rec_at 1 90000000; rec_at 1 90000001] [])).2
          = [SelectMinMax (0%nat, "sqlth_1_data");
             SelectWindow (0%nat, "sqlth_1_data") 1000 86401000;
             InsertOnConflictDoNothing (0%nat, "sqlth_1_data_ts") [rec_at 1 1000];
             Commit 0%nat;
             SelectWindow (0%nat, "sqlth_1_data") 86401000 90000001;
             InsertOnConflictDoNothing (0%nat, "sqlth_1_data_ts") [rec_at 1 90000000];
             Commit 0%nat])
    by (vm_compute; reflexivity).
  rewrite Hrun, !elem_of_cons. do 4 right. left. reflexivity.
Defined.

(** Without any unique constraint on the target the INSERT skips nothing:
    a second run stores every row of the windows a second time. *)
Example second_run_duplicates_without_constraint :
  let w := two_tables [rec_at 1 1000; rec_at 1 2000] [] in
  let w1 := (migrate_all no_conflict utc_day me "sqlth_1_data" "sqlth_1_data_ts" w).2 in
  let w2 := (migrate_all no_conflict utc_day me "sqlth_1_data" "sqlth_1_data_ts" w1).2 in
  tables w1 !! (0%nat, "sqlth_1_data_ts") = Some [rec_at 1 1000] /\
  tables w2 !! (0%nat, "sqlth_1_data_ts") = Some [rec_at 1 1000; rec_at 1 1000].
Proof. cbv zeta. each_by_running. Qed.

(** * Further properties *)

(** ** What a run adds to the target *)

Lemma extends_target_tables T w1 w1' w2 w2' :
  tables w1' = tables w1 -> tables w2' = tables w2 ->
  extends_target T w1 w2 -> extends_target T w1' w2'.
Proof. unfold extends_target. intros -> ->. auto. Qed.

Lemma migrate_all_extends_target conflict local_day self source_table target_table w :
  extends_target (target_conn self, target_table) w
    (migrate_all conflict local_day self source_table target_table w).2.
Proof.
  pose proof (migrate_all_tables conflict local_day self source_table target_table w)
    as Htab.
  destruct (tables w !! (source_conn self, source_table)) as [srows|];
    [|apply extends_target_same; exact Htab].
  destruct (min_t_stamp srows) as [min_ts|];
    [|apply extends_target_same; exact Htab].
  destruct (max_t_stamp srows) as [max_ts|];
    [|apply extends_target_same; exact Htab].
  eapply extends_target_tables;
    [| |apply (migrate_loop_extends_target conflict local_day self source_table
                 target_table max_ts min_ts 0 0
                 (loop_entry (source_conn self, source_table) srows w))].
  - reflexivity.
  - exact Htab.
Qed.


Lemma insert_rows_added conflict records :
  forall rows,
    exists extra,
      insert_rows conflict rows records = rows ++ extra /\
      (forall r, r ∈ extra -> r ∈ records) /\
      (length extra <= length records)%nat.
Proof.
  induction records as [|x records IH]; intros rows.
  - exists []. split; [symmetry; apply app_nil_r|]. split; [intros r Hr; inversion Hr|].
    reflexivity.
  - change (insert_rows conflict rows (x :: records))
      with (insert_rows conflict (insert_row conflict rows x) records).
    destruct (IH (insert_row conflict rows x)) as (extra & Heq & Hin & Hlen).
    unfold insert_row in *. destruct (existsb (conflict x) rows).
    + exists extra. split; [exact Heq|]. split; [|simpl; lia].
      intros r Hr. right. apply Hin, Hr.
    + exists (x :: extra). split; [rewrite Heq, <- app_assoc; reflexivity|]. split.
      * intros r Hr. apply elem_of_cons in Hr as [->|Hr]; [left|right; apply Hin, Hr].
      * simpl. lia.
Qed.

Section Additions.

Variable conflict : HistRecord -> HistRecord -> bool.
Variable local_day : Z -> option Z.
Variable self : HistorianMigration.
Variables source_table target_table : string.
Variables srows trows : list HistRecord.
Variables min_ts max_ts : Z.

Local Abbreviation adding_here :=
  (adding self source_table target_table srows trows min_ts max_ts).

Lemma adding_tables current_ts current_ts' w w' :
  tables w' = tables w -> min_ts <= current_ts' ->
  adding_here current_ts w -> adding_here current_ts' w'.
Proof. unfold adding. intros -> Hle (_ & Hsrc & Hadded). auto. Qed.

Lemma adding_pass current_ts total batch_num w :
  adding_here current_ts w -> current_ts < max_ts ->
  adding_here (Z.min (current_ts + batch_interval) max_ts)
    (loop_body conflict local_day self source_table target_table max_ts
       current_ts total batch_num w).2.
Proof.
  intros Hinv Hlt.
  assert (Hend : current_ts < Z.min (current_ts + batch_interval) max_ts <= max_ts)
    by (unfold batch_interval; lia).
  pose proof Hinv as (Hmin & Hsrc & added & Htgt & Hadded).
  pose proof (loop_body_spec conflict local_day self source_table target_table
                max_ts current_ts total batch_num w) as Hpass.
  destruct Hpass as [w' _ Htab | rows w' _ _ Htab _ | rows w' _ _ _ Htab
                    | rows trows0 w' Hrows _ Htgt0 Htab]; simpl;
    try (eapply adding_tables; [exact Htab|lia|exact Hinv]).
  rewrite Htgt in Htgt0. injection Htgt0 as <-.
  destruct (insert_rows_added conflict
              (window_rows current_ts (Z.min (current_ts + batch_interval) max_ts) rows)
              (trows ++ added)) as (extra & Heq & Hextra & _).
  assert (Hnew : forall r, r ∈ extra -> r ∈ srows /\ in_window min_ts max_ts r).
  { intros r Hr. apply Hextra, window_rows_elem in Hr as [[Hlo Hhi] Hr].
    split; [eapply Hsrc; eassumption|]. unfold in_window. lia. }
  split; [lia|]. split.
  - intros rows' Hrows' r Hr. rewrite Htab in Hrows'.
    destruct (decide ((target_conn self, target_table)
                      = (source_conn self, source_table))) as [Halias|Hdiff].
    + rewrite Halias, lookup_insert_eq in Hrows'. injection Hrows' as <-.
      rewrite Heq in Hr. apply elem_of_app in Hr as [Hold|Hr]; [|apply Hnew, Hr].
      apply (Hsrc (trows ++ added)); [rewrite <- Halias; exact Htgt|exact Hold].
    + rewrite lookup_insert_ne in Hrows' by exact Hdiff. eapply Hsrc; eassumption.
  - exists (added ++ extra). split.
    + rewrite Htab, lookup_insert_eq, Heq, app_assoc. reflexivity.
    + intros r Hr. apply elem_of_app in Hr as [Hr|Hr]; [apply Hadded, Hr|apply Hnew, Hr].
Qed.

Lemma migrate_loop_adding current_ts total batch_num w :
  adding_here current_ts w ->
  exists stop_ts,
    adding_here stop_ts
      (migrate_loop conflict local_day self source_table target_table max_ts
         current_ts total batch_num w).2.
Proof.
  apply (migrate_loop_rule conflict local_day self source_table target_table max_ts
           (fun cur _ _ w' => adding_here cur w')
           (fun res => exists stop_ts, adding_here stop_ts res.2)).
  - intros cur ? ? w' Hinv _. exists cur. exact Hinv.
  - intros cur tot bn w' Hinv Hlt.
    pose proof (adding_pass cur tot bn w' Hinv Hlt) as Hpass.
    destruct (loop_body _ _ _ _ _ _ _ _ _ _) as [[tot'|e] w'']; simpl in *;
      [exact Hpass|eexists; exact Hpass].
Qed.

End Additions.


(** ** What a run that returns has covered *)

Lemma migrate_all_total conflict local_day self source_table target_table
    w srows trows min_ts max_ts :
  tables w !! (source_conn self, source_table) = Some srows ->
  tables w !! (target_conn self, target_table) = Some trows ->
  min_t_stamp srows = Some min_ts ->
  max_t_stamp srows = Some max_ts ->
  (forall t, min_ts <= t < max_ts -> is_Some (local_day t)) ->
  (migrate_all conflict local_day self source_table target_table w).1
  = Return (Z.of_nat (length (filter (in_window min_ts max_ts) srows))).
Proof.
  intros Hsrc Htgt Hmin Hmax Hdays.
  rewrite migrate_all_run. cbv zeta. rewrite Hsrc, Hmin, Hmax.
  pose proof (migrate_loop_counts conflict local_day self source_table target_table
                srows min_ts max_ts Hdays
                (loop_entry (source_conn self, source_table) srows w)) as Hloop.
  unfold loop_entry in Hloop. rewrite Hmin, Hmax in Hloop.
  destruct (migrate_loop _ _ _ _ _ _ _ _ _ _) as [[total|e] w'];
    simpl in *; apply Hloop.
  all: pose proof (min_le_max_t_stamp _ _ _ Hmin Hmax);
    unfold counting; simpl; repeat split; try lia; eauto.
  all: rewrite filter_window_empty; reflexivity.
Qed.

Section Covering.

Variable conflict : HistRecord -> HistRecord -> bool.
Variable local_day : Z -> option Z.
Variable self : HistorianMigration.
Variables source_table target_table : string.
Variable srows : list HistRecord.
Variables min_ts max_ts : Z.

Hypothesis conflict_refl : forall r, conflict r r = true.
Hypothesis tables_differ :
  (source_conn self, source_table) <> (target_conn self, target_table).

Local Abbreviation covering_here :=
  (covering conflict self source_table target_table srows min_ts).

Lemma covering_pass current_ts total batch_num w :
  covering_here current_ts w -> current_ts < max_ts ->
  match loop_body conflict local_day self source_table target_table max_ts
          current_ts total batch_num w with
  | (Return _, w') => covering_here (Z.min (current_ts + batch_interval) max_ts) w'
  | (Raise _, _) => True
  end.
Proof.
  intros (Hsrc & trows & Htgt & Hcov) Hlt.
  assert (Hend : current_ts < Z.min (current_ts + batch_interval) max_ts)
    by (unfold batch_interval; lia).
  set (end_ts := Z.min (current_ts + batch_interval) max_ts) in *.
  pose proof (loop_body_spec conflict local_day self source_table target_table
                max_ts current_ts total batch_num w) as Hpass.
  fold end_ts in Hpass.
  destruct Hpass as [w' _ _ | rows w' Hrows Hwin Htab _ | rows w' _ _ _ _
                    | rows trows0 w' Hrows _ Htgt0 Htab]; try exact I.
  - rewrite Hsrc in Hrows. injection Hrows as <-.
    split; [rewrite Htab; exact Hsrc|]. exists trows. split; [rewrite Htab; exact Htgt|].
    intros r Hr [Hlo Hhi].
    destruct (decide (t_stamp r < current_ts)) as [Hold|Hnew];
      [apply Hcov; [exact Hr|split; lia]|].
    assert (Hin : r ∈ window_rows current_ts end_ts srows)
      by (apply window_rows_elem; split; [split; lia|exact Hr]).
    rewrite Hwin in Hin. inversion Hin.
  - rewrite Hsrc in Hrows. injection Hrows as <-.
    rewrite Htgt in Htgt0. injection Htgt0 as <-.
    destruct (local_day current_ts); [|exact I].
    split; [rewrite Htab, lookup_insert_ne by congruence; exact Hsrc|].
    eexists. split; [rewrite Htab, lookup_insert_eq; reflexivity|].
    intros r Hr [Hlo Hhi].
    destruct (decide (t_stamp r < current_ts)) as [Hold|Hnew].
    + eapply covered_prefix; [apply insert_rows_prefix|].
      apply Hcov; [exact Hr|split; lia].
    + pose proof (insert_rows_covers conflict conflict_refl
                    (window_rows current_ts end_ts srows) trows) as Hall.
      rewrite Forall_forall in Hall. apply Hall.
      apply window_rows_elem. split; [split; lia|exact Hr].
Qed.

Lemma migrate_loop_covering total batch_num w :
  covering_here min_ts w ->
  let result := migrate_loop conflict local_day self source_table target_table
                  max_ts min_ts total batch_num w in
  forall total', result.1 = Return total' -> covering_here max_ts result.2.
Proof.
  intros Hstart result. subst result.
  apply (migrate_loop_rule conflict local_day self source_table target_table max_ts
           (fun cur _ _ w' => covering_here cur w')
           (fun res => forall total', res.1 = Return total' -> covering_here max_ts res.2));
    [| |exact Hstart].
  - intros cur tot bn w' (Hsrc & trows & Htgt & Hcov) Hge total' _.
    split; [exact Hsrc|]. exists trows. split; [exact Htgt|].
    intros r Hr [Hlo Hhi]. apply Hcov; [exact Hr|split; lia].
  - intros cur tot bn w' Hinv Hlt.
    pose proof (covering_pass cur tot bn w' Hinv Hlt) as Hpass.
    destruct (loop_body _ _ _ _ _ _ _ _ _ _) as [[tot'|e] w''];
      [exact Hpass|intros ? Hret; discriminate Hret].
Qed.

End Covering.


(** ** How many windows, how many rows *)

Lemma windows_ahead_step max_ts current_ts :
  current_ts < max_ts ->
  windows_ahead max_ts current_ts
  = S (windows_ahead max_ts (Z.min (current_ts + batch_interval) max_ts)).
Proof.
  intros Hlt. unfold windows_ahead.
  assert (HI : 0 < batch_interval) by (unfold batch_interval; lia).
  destruct (Z.min_spec (current_ts + batch_interval) max_ts) as [[Hc ->] | [Hc ->]].
  - replace (max_ts - current_ts + batch_interval - 1)
      with ((max_ts - (current_ts + batch_interval) + batch_interval - 1)
            + 1 * batch_interval) by lia.
    rewrite Z.div_add by lia.
    rewrite Z2Nat.inj_add by (try apply Z.div_pos; lia).
    simpl. lia.
  - replace (max_ts - max_ts + batch_interval - 1) with (batch_interval - 1) by lia.
    rewrite (Z.div_small (batch_interval - 1)) by lia.
    replace (max_ts - current_ts + batch_interval - 1)
      with ((max_ts - current_ts - 1) + 1 * batch_interval) by lia.
    rewrite Z.div_add, Z.div_small by lia. reflexivity.
Qed.

Lemma windows_ahead_done max_ts current_ts :
  ~ current_ts < max_ts -> windows_ahead max_ts current_ts = 0%nat.
Proof.
  intros Hge. unfold windows_ahead.
  assert (HI : 0 < batch_interval) by (unfold batch_interval; lia).
  assert (Hdiv : (max_ts - current_ts + batch_interval - 1) / batch_interval <= 0).
  { apply Z.lt_succ_r. apply Z.div_lt_upper_bound; lia. }
  lia.
Qed.

Lemma migrate_loop_window_count conflict local_day self source_table target_table
    max_ts current_ts total batch_num w :
  let result := migrate_loop conflict local_day self source_table target_table
                  max_ts current_ts total batch_num w in
  forall total', result.1 = Return total' ->
    length (asked_windows (statements result.2))
    = (length (asked_windows (statements w)) + windows_ahead max_ts current_ts)%nat.
Proof.
  intros result. subst result.
  apply (migrate_loop_rule conflict local_day self source_table target_table max_ts
           (fun cur _ _ w' =>
              (length (asked_windows (statements w')) + windows_ahead max_ts cur
               = length (asked_windows (statements w))
                 + windows_ahead max_ts current_ts)%nat)
           (fun res => forall total', res.1 = Return total' ->
              length (asked_windows (statements res.2))
              = (length (asked_windows (statements w))
                 + windows_ahead max_ts current_ts)%nat)).
  - intros cur tot bn w' Hinv Hge total' _.
    rewrite (windows_ahead_done _ _ Hge) in Hinv. simpl. lia.
  - intros cur tot bn w' Hinv Hlt.
    destruct (loop_body_statements conflict local_day self source_table target_table
                max_ts cur tot bn w') as (more & Hstm & Hmore).
    rewrite (windows_ahead_step _ _ Hlt) in Hinv.
    destruct (loop_body _ _ _ _ _ _ _ _ _ _) as [[tot'|e] w''];
      [|intros ? Hret; discriminate Hret].
    simpl in Hstm. rewrite Hstm, asked_windows_app.
    change (SelectWindow (source_conn self, source_table) cur
              (Z.min (cur + batch_interval) max_ts) :: more)
      with ([SelectWindow (source_conn self, source_table) cur
               (Z.min (cur + batch_interval) max_ts)] ++ more).
    rewrite asked_windows_app, (asked_windows_none more Hmore), app_nil_r.
    rewrite length_app. simpl. lia.
  - reflexivity.
Qed.


Lemma rows_below_and_at_max min_ts max_ts (rows : list HistRecord) :
  (forall r, r ∈ rows -> min_ts <= t_stamp r <= max_ts) ->
  (length (filter (in_window min_ts max_ts) rows)
   + length (filter (at_instant max_ts) rows))%nat = length rows.
Proof.
  induction rows as [|x rows IH]; intros Hall; [reflexivity|].
  rewrite !filter_cons.
  pose proof (Hall x ltac:(left)) as Hx.
  specialize (IH (fun r Hr => Hall r ltac:(right; exact Hr))).
  unfold in_window, at_instant in *.
  destruct (decide (min_ts <= t_stamp x /\ t_stamp x < max_ts)),
    (decide (t_stamp x = max_ts)); simpl; lia.
Qed.

Lemma rows_at_max (rows : list HistRecord) max_ts :
  max_t_stamp rows = Some max_ts ->
  (1 <= length (filter (at_instant max_ts) rows))%nat.
Proof.
  intros Hmax. destruct (max_t_stamp_attained _ _ Hmax) as (r & Hr & Hts).
  assert (Hin : r ∈ filter (at_instant max_ts) rows)
    by (apply list_elem_of_filter; split; assumption).
  destruct (filter (at_instant max_ts) rows); [inversion Hin|simpl; lia].
Qed.

(** X5. The total that [migrate_all] returns falls short of the number of
    rows of the source by the number of rows that carry the greatest
    [t_stamp], and there is at least one such row. *)
Theorem migrate_all_shortfall conflict local_day self source_table target_table
    w srows trows min_ts max_ts :
  tables w !! (source_conn self, source_table) = Some srows ->
  tables w !! (target_conn self, target_table) = Some trows ->
  min_t_stamp srows = Some min_ts ->
  max_t_stamp srows = Some max_ts ->
  (forall t, min_ts <= t < max_ts -> is_Some (local_day t)) ->
  (migrate_all conflict local_day self source_table target_table w).1
  = Return (count_rows srows - count_rows (filter (at_instant max_ts) srows)) /\
  1 <= count_rows (filter (at_instant max_ts) srows).
Proof.
  intros Hsrc Htgt Hmin Hmax Hdays.
  rewrite (migrate_all_total conflict local_day self source_table target_table
             w srows trows min_ts max_ts Hsrc Htgt Hmin Hmax Hdays).
  pose proof (rows_below_and_at_max min_ts max_ts srows) as Hsum.
  pose proof (rows_at_max srows max_ts Hmax) as Hone.
  unfold count_rows. split; [|lia]. f_equal.
  rewrite <- Hsum; [lia|].
  intros r Hr. split; [eapply min_t_stamp_le|eapply max_t_stamp_ge]; eassumption.
Qed.

(** ** Validation after a run *)

Section Bound.

Variable conflict : HistRecord -> HistRecord -> bool.
Variable local_day : Z -> option Z.
Variable self : HistorianMigration.
Variables source_table target_table : string.
Variables srows trows : list HistRecord.
Variables min_ts max_ts : Z.

Hypothesis tables_differ :
  (source_conn self, source_table) <> (target_conn self, target_table).

Local Abbreviation bounded_here :=
  (bounded self source_table target_table srows trows min_ts max_ts).

Lemma bounded_pass current_ts total batch_num w :
  bounded_here current_ts w -> current_ts < max_ts ->
  bounded_here (Z.min (current_ts + batch_interval) max_ts)
    (loop_body conflict local_day self source_table target_table max_ts
       current_ts total batch_num w).2.
Proof.
  intros (Hrange & Hsrc & trows' & Htgt & Hlen) Hlt.
  assert (Hend : current_ts < Z.min (current_ts + batch_interval) max_ts <= max_ts)
    by (unfold batch_interval; lia).
  set (end_ts := Z.min (current_ts + batch_interval) max_ts) in *.
  pose proof (filter_window_split min_ts current_ts end_ts srows
                ltac:(lia) ltac:(lia)) as Hsplit.
  pose proof (loop_body_spec conflict local_day self source_table target_table
                max_ts current_ts total batch_num w) as Hpass.
  fold end_ts in Hpass.
  destruct Hpass as [w' _ Htab | rows w' _ _ Htab _ | rows w' _ _ _ Htab
                    | rows trows0 w' Hrows _ Htgt0 Htab]; simpl.
  1-3: split; [lia|]; rewrite Htab; split; [exact Hsrc|];
       exists trows'; split; [exact Htgt|lia].
  rewrite Hsrc in Hrows. injection Hrows as <-.
  rewrite Htgt in Htgt0. injection Htgt0 as <-.
  split; [lia|]. rewrite Htab.
  split; [rewrite lookup_insert_ne by congruence; exact Hsrc|].
  eexists. split; [apply lookup_insert_eq|].
  destruct (insert_rows_added conflict (window_rows current_ts end_ts srows) trows')
    as (extra & -> & _ & Hextra).
  rewrite window_rows_length in Hextra. rewrite length_app. lia.
Qed.

Lemma migrate_loop_bounded current_ts total batch_num w :
  bounded_here current_ts w ->
  exists stop_ts,
    bounded_here stop_ts
      (migrate_loop conflict local_day self source_table target_table max_ts
         current_ts total batch_num w).2.
Proof.
  apply (migrate_loop_rule conflict local_day self source_table target_table max_ts
           (fun cur _ _ w' => bounded_here cur w')
           (fun res => exists stop_ts, bounded_here stop_ts res.2)).
  - intros cur ? ? w' Hinv _. exists cur. exact Hinv.
  - intros cur tot bn w' Hinv Hlt.
    pose proof (bounded_pass cur tot bn w' Hinv Hlt) as Hpass.
    destruct (loop_body _ _ _ _ _ _ _ _ _ _) as [[tot'|e] w'']; simpl in *;
      [exact Hpass|eexists; exact Hpass].
Qed.

End Bound.

(** After a run into another table, whatever its outcome: the source is
    untouched and the target has grown by fewer rows than the source
    holds. *)
Lemma migrate_all_target_stays_behind conflict local_day self source_table target_table
    w srows trows :
  (source_conn self, source_table) <> (target_conn self, target_table) ->
  tables w !! (source_conn self, source_table) = Some srows ->
  tables w !! (target_conn self, target_table) = Some trows ->
  srows <> [] ->
  let w' := (migrate_all conflict local_day self source_table target_table w).2 in
  tables w' !! (source_conn self, source_table) = Some srows /\
  exists trows',
    tables w' !! (target_conn self, target_table) = Some trows' /\
    (length trows' < length trows + length srows)%nat.
Proof.
  intros Hdiff Hsrc Htgt Hne w'. subst w'.
  rewrite migrate_all_tables, Hsrc.
  destruct (min_t_stamp_nonempty srows Hne) as [[min_ts Hmin] [max_ts Hmax]].
  rewrite Hmin, Hmax.
  destruct (migrate_loop_bounded conflict local_day self source_table target_table
              srows trows min_ts max_ts Hdiff min_ts 0 0
              (loop_entry (source_conn self, source_table) srows w))
    as (stop_ts & Hrange & Hsrc' & trows' & Htgt' & Hlen).
  - pose proof (min_le_max_t_stamp _ _ _ Hmin Hmax).
    split; [lia|]. simpl. split; [exact Hsrc|]. exists trows. split; [exact Htgt|lia].
  - split; [exact Hsrc'|]. exists trows'. split; [exact Htgt'|].
    pose proof (filter_window_split min_ts stop_ts max_ts srows
                  ltac:(lia) ltac:(lia)) as Hsplit.
    pose proof (rows_below_and_at_max min_ts max_ts srows) as Hsum.
    pose proof (rows_at_max srows max_ts Hmax) as Hone.
    rewrite <- Hsum; [lia|].
    intros r Hr. split; [eapply min_t_stamp_le|eapply max_t_stamp_ge]; eassumption.
Qed.

(** X6. After [migrate_all] from a source that is not empty into another
    table that was empty, [validate_migration] returns normally and logs a
    record count mismatch with a positive difference: the target cannot
    have as many rows as the source. *)
Theorem validate_after_fresh_migration_warns conflict local_day self
    source_table target_table w srows :
  (source_conn self, source_table) <> (target_conn self, target_table) ->
  tables w !! (source_conn self, source_table) = Some srows ->
  tables w !! (target_conn self, target_table) = Some [] ->
  srows <> [] ->
  let w1 := (migrate_all conflict local_day self source_table target_table w).2 in
  let validated := validate_migration self source_table target_table w1 in
  validated.1 = Return tt /\
  exists difference,
    0 < difference /\
    (WARNING, RecordCountMismatch difference) ∈ log validated.2.
Proof.
  intros Hdiff Hsrc Htgt Hne w1 validated. subst validated.
  destruct (migrate_all_target_stays_behind conflict local_day self source_table
              target_table w srows [] Hdiff Hsrc Htgt Hne)
    as (Hsrc1 & trows1 & Htgt1 & Hlen).
  fold w1 in Hsrc1, Htgt1.
  rewrite (validate_migration_run _ _ _ _ _ _ Hsrc1 Htgt1).
  split; [reflexivity|].
  exists (count_rows srows - count_rows trows1).
  unfold count_rows. simpl in Hlen. split; [lia|].
  simpl. rewrite elem_of_app. right.
  unfold count_verdict, count_rows. rewrite decide_False by lia.
  rewrite !elem_of_cons. right. right. right. left. reflexivity.
Qed.

(** X7. [validate_migration] of a table against itself reports three
    matches and no warning, whatever the table holds: the log gains the
    header, the two counts and the three INFO verdicts, and nothing else. *)
Theorem validate_table_against_itself self source_table target_table w rows :
  (source_conn self, source_table) = (target_conn self, target_table) ->
  tables w !! (source_conn self, source_table) = Some rows ->
  let validated := validate_migration self source_table target_table w in
  validated.1 = Return tt /\
  log validated.2
  = log w ++ [(INFO, ValidatingMigration);
              (INFO, SourceRecords (count_rows rows));
              (INFO, TargetRecords (count_rows rows));
              (INFO, RecordCountsMatch);
              (INFO, TimestampRangesMatch);
              (INFO, TagCountsMatch (count_distinct_tagid rows))].
Proof.
  intros Halias Hsrc validated. subst validated.
  assert (Htgt : tables w !! (target_conn self, target_table) = Some rows)
    by (rewrite <- Halias; exact Hsrc).
  rewrite (validate_migration_run _ _ _ _ _ _ Hsrc Htgt).
  unfold count_verdict, range_verdict, tag_verdict.
  rewrite !decide_True by reflexivity. split; reflexivity.
Qed.

(** ** A target table that does not exist *)

Lemma min_t_stamp_attained rows min_ts :
  min_t_stamp rows = Some min_ts -> exists r, r ∈ rows /\ t_stamp r = min_ts.
Proof.
  destruct rows as [|x rest]; [discriminate|].
  unfold min_t_stamp, agg. intros [= <-].
  assert (Hhit : forall (l : list HistRecord) a,
            foldl (fun acc y => Z.min acc (t_stamp y)) a l = a \/
            exists r, r ∈ l /\ t_stamp r = foldl (fun acc y => Z.min acc (t_stamp y)) a l).
  { induction l as [|y l IH]; intros a; simpl; [left; reflexivity|].
    destruct (IH (Z.min a (t_stamp y))) as [Heq|(r & Hr & Heq)].
    - destruct (Z.min_spec a (t_stamp y)) as [[_ Hm]|[_ Hm]]; rewrite Hm in Heq.
      + left. rewrite Hm. exact Heq.
      + right. exists y. split; [left|]. rewrite Hm. symmetry. exact Heq.
    - right. exists r. split; [right; exact Hr|exact Heq]. }
  destruct (Hhit rest (t_stamp x)) as [Heq|(r & Hr & Heq)].
  - exists x. split; [left|symmetry; exact Heq].
  - exists r. split; [right; exact Hr|exact Heq].
Qed.


(** ** A batch run twice *)

Lemma migrate_batch_tables conflict self start_ts end_ts source_table target_table w :
  tables (migrate_batch conflict self start_ts end_ts source_table target_table w).2 =
  match tables w !! (source_conn self, source_table),
        tables w !! (target_conn self, target_table) with
  | Some srows, Some trows =>
      <[(target_conn self, target_table) :=
          insert_rows conflict trows (window_rows start_ts end_ts srows)]> (tables w)
  | _, _ => tables w
  end.
Proof.
  rewrite migrate_batch_run. cbv zeta.
  destruct (tables w !! (source_conn self, source_table)) as [srows|]; [|reflexivity].
  destruct (window_rows start_ts end_ts srows) as [|r rest].
  - destruct (tables w !! (target_conn self, target_table)) as [trows|] eqn:Htgt;
      [|reflexivity].
    simpl. symmetry. apply insert_id, Htgt.
  - destruct (tables w !! (target_conn self, target_table)); reflexivity.
Qed.

(** X9. With a target whose constraints reject a row that is already
    stored, a second [migrate_batch] over the same window leaves every table
    as the first one left it. *)
Theorem migrate_batch_twice_adds_nothing conflict self start_ts end_ts
    source_table target_table w :
  (forall r, conflict r r = true) ->
  let w1 := (migrate_batch conflict self start_ts end_ts source_table target_table w).2 in
  tables (migrate_batch conflict self start_ts end_ts source_table target_table w1).2
  = tables w1.
Proof.
  intros Hrefl w1.
  pose proof (migrate_batch_tables conflict self start_ts end_ts source_table
                target_table w) as Hw1.
  fold w1 in Hw1. rewrite migrate_batch_tables.
  destruct (tables w !! (source_conn self, source_table)) as [srows|] eqn:Hsrc;
    [|rewrite Hw1, Hsrc; reflexivity].
  destruct (tables w !! (target_conn self, target_table)) as [trows|] eqn:Htgt;
    [|rewrite Hw1, Hsrc, Htgt; reflexivity].
  destruct (decide ((source_conn self, source_table)
                    = (target_conn self, target_table))) as [Halias|Hdiff].
  - rewrite Halias, Htgt in Hsrc. injection Hsrc as ->.
    assert (Hidle : insert_rows conflict srows (window_rows start_ts end_ts srows)
                    = srows).
    { apply insert_rows_covered, Forall_forall. intros r Hr.
      apply covered_by_itself; [exact Hrefl|].
      apply window_rows_elem in Hr as [_ Hr]. exact Hr. }
    rewrite Hidle in Hw1. rewrite (insert_id _ _ _ Htgt) in Hw1.
    rewrite Hw1, Halias, Htgt, Hidle. apply insert_id, Htgt.
  - rewrite Hw1, lookup_insert_ne, Hsrc, lookup_insert_eq by congruence.
    rewrite insert_rows_covered by apply insert_rows_covers, Hrefl.
    apply insert_insert_eq.
Qed.

(** * The script around the methods *)

(** ** What a step of the script leaves alone *)

Lemma same_tables_preorder : PreOrder same_tables.
Proof.
  split; [intros h; reflexivity|].
  intros h1 h2 h3 H12 H23. unfold same_tables in *. congruence.
Qed.

#[global] Existing Instance same_tables_preorder.

Lemma same_sessions_preorder : PreOrder same_sessions.
Proof.
  split; [intros h; repeat split|].
  intros h1 h2 h3 (? & ? & ?) (? & ? & ?). unfold same_sessions. repeat split; congruence.
Qed.

#[global] Existing Instance same_sessions_preorder.

Section Preserves.

Context (R : relation Script.Host) `{!PreOrder R}.

Lemma preserves_ret {A : Type} (a : A) : preserves R (mret a).
Proof. intros h. reflexivity. Qed.

Lemma preserves_fail {A : Type} f : preserves R (@Script.fail A f).
Proof. intros h. reflexivity. Qed.

Lemma preserves_bind {A B : Type} (c : Script.H A) (f : A -> Script.H B) :
  preserves R c -> (forall a, preserves R (f a)) -> preserves R (c ≫= f).
Proof.
  intros Hc Hf h. unfold mbind, Script.H_bind.
  specialize (Hc h). destruct (c h) as [[a|e] h']; simpl in *.
  - etrans; [exact Hc|apply Hf].
  - exact Hc.
Qed.

End Preserves.

Ltac preserves_steps :=
  repeat first
    [ solve [auto with preserves]
    | apply preserves_bind; [apply _| |intros ?]
    | solve [apply preserves_ret; apply _]
    | solve [apply preserves_fail; apply _]
    | case_decide
    | case_match ].

Create HintDb preserves.

Lemma lift_same_sessions {A : Type} (c : M A) : preserves same_sessions (Script.lift c).
Proof.
  intros h. unfold Script.lift.
  destruct (c (Script.world h)) as [[a|e] w']; repeat split.
Qed.

Lemma lift_same_tables {A : Type} (c : M A) :
  reads_only c -> preserves same_tables (Script.lift c).
Proof.
  intros Hc h. unfold Script.lift, same_tables. specialize (Hc (Script.world h)).
  destruct (c (Script.world h)) as [[a|e] w']; exact Hc.
Qed.

Lemma cursor_same (R : relation Script.Host) `{!PreOrder R} conn :
  preserves R (Script.cursor conn).
Proof.
  intros h. unfold Script.cursor.
  destruct conn as [s|]; [|reflexivity].
  destruct (decide (s ∈ Script.closed h)); [reflexivity|].
  destruct (Script.opened h !! s); reflexivity.
Qed.

Lemma cursor_same_tables conn : preserves same_tables (Script.cursor conn).
Proof. apply cursor_same. apply _. Qed.

Lemma cursor_same_sessions conn : preserves same_sessions (Script.cursor conn).
Proof. apply cursor_same. apply _. Qed.

Lemma note_same_tables lvl m : preserves same_tables (Script.note lvl m).
Proof. intros h. reflexivity. Qed.

Lemma note_same_sessions lvl m : preserves same_sessions (Script.note lvl m).
Proof. intros h. repeat split. Qed.

Lemma issue_same_tables s : preserves same_tables (Script.issue s).
Proof. intros h. reflexivity. Qed.

Lemma issue_same_sessions s : preserves same_sessions (Script.issue s).
Proof. intros h. repeat split. Qed.

Lemma self_same_tables : preserves same_tables Script.self.
Proof. intros h. reflexivity. Qed.

Lemma self_same_sessions : preserves same_sessions Script.self.
Proof. intros h. repeat split. Qed.

Lemma assign_same_tables f : preserves same_tables (Script.assign f).
Proof. intros h. reflexivity. Qed.

Lemma close_session_same_tables s : preserves same_tables (Script.close_session s).
Proof. intros h. reflexivity. Qed.

Lemma reads_only_find_table t : reads_only (Script.find_table t).
Proof. intros w. reflexivity. Qed.

#[global] Hint Resolve lift_same_sessions lift_same_tables
  cursor_same_tables cursor_same_sessions note_same_tables note_same_sessions
  issue_same_tables issue_same_sessions self_same_tables self_same_sessions
  assign_same_tables close_session_same_tables reads_only_find_table
  reads_only_read_table reads_only_validate_migration : preserves.

Lemma cursor_open h s db :
  Script.opened h !! s = Some db -> s ∉ Script.closed h ->
  Script.cursor (Some s) h = (Script.Done db, h).
Proof.
  intros Hdb Hopen. unfold Script.cursor.
  rewrite decide_False by exact Hopen. rewrite Hdb. reflexivity.
Qed.

Lemma same_tables_but_preorder names : PreOrder (same_tables_but names).
Proof.
  split; [intros h db t _; reflexivity|].
  intros h1 h2 h3 H12 H23 db t Ht. rewrite (H23 db t Ht). apply H12, Ht.
Qed.

#[global] Existing Instance same_tables_but_preorder.

Lemma preserves_same_tables_but {A : Type} names (c : Script.H A) :
  preserves same_tables c -> preserves (same_tables_but names) c.
Proof. intros Hc h db t _. rewrite (Hc h). reflexivity. Qed.

Lemma bind_done {A B : Type} (c : Script.H A) (f : A -> Script.H B) h a h' :
  c h = (Script.Done a, h') -> (c ≫= f) h = f a h'.
Proof. intros Hc. unfold mbind, Script.H_bind. rewrite Hc. reflexivity. Qed.

Lemma bind_failed {A B : Type} (c : Script.H A) (f : A -> Script.H B) h e h' :
  c h = (Script.Failed e, h') -> (c ≫= f) h = (Script.Failed e, h').
Proof. intros Hc. unfold mbind, Script.H_bind. rewrite Hc. reflexivity. Qed.

Lemma sound_next h : sound h -> length (Script.opened h) ∉ Script.closed h.
Proof.
  intros Hsound Hin. unfold sound in Hsound. rewrite Forall_forall in Hsound.
  specialize (Hsound _ Hin). lia.
Qed.

Lemma connected_done h s t d1 d2 :
  Script.source_conn (Script.this h) = Some s ->
  Script.target_conn (Script.this h) = Some t ->
  Script.opened h !! s = Some d1 -> Script.opened h !! t = Some d2 ->
  s ∉ Script.closed h -> t ∉ Script.closed h ->
  Script.connected h
  = (Script.Done (mkMigration (Script.batch_size (Script.this h)) d1 d2), h).
Proof.
  intros Hs Ht Hd1 Hd2 Hos Hot.
  unfold Script.connected, Script.self, mbind, Script.H_bind. cbn.
  rewrite Hs, (cursor_open h s d1 Hd1 Hos). cbn.
  rewrite Ht, (cursor_open h t d2 Hd2 Hot). reflexivity.
Qed.

Section ScriptFacts.

Variable conflict : HistRecord -> HistRecord -> bool.
Variable local_day : Z -> option Z.
Variable reach : Script.Config -> option Conn.
Variable local_time : Z -> option Z.
Variable pretty_size : list HistRecord -> string.

Lemma connect_same_tables : preserves same_tables (Script.connect reach).
Proof.
  assert (Hopen : forall c, preserves same_tables (Script.psycopg2_connect reach c)).
  { intros c h. unfold Script.psycopg2_connect. destruct (reach c); reflexivity. }
  unfold Script.connect. preserves_steps.
Qed.

Lemma analyze_same_tables :
  preserves same_tables (Script.analyze_source_data local_time pretty_size).
Proof. unfold Script.analyze_source_data, Script.fromtimestamp. preserves_steps. Qed.

Lemma analyze_same_sessions :
  preserves same_sessions (Script.analyze_source_data local_time pretty_size).
Proof. unfold Script.analyze_source_data, Script.fromtimestamp. preserves_steps. Qed.

Lemma connected_same_tables : preserves same_tables Script.connected.
Proof. unfold Script.connected. preserves_steps. Qed.

Lemma connected_same_sessions : preserves same_sessions Script.connected.
Proof. unfold Script.connected. preserves_steps. Qed.

Lemma create_backup_same_sessions stamp table_name :
  preserves same_sessions (Script.create_backup stamp table_name).
Proof. unfold Script.create_backup, Script.create_table_as. preserves_steps. Qed.

Lemma close_same_tables : preserves same_tables Script.close.
Proof. unfold Script.close. preserves_steps. Qed.

Lemma connect_run h :
  Script.connect reach h =
  let me := Script.this h in
  let n := length (Script.opened h) in
  let said m := Script.report h ++ [(length (log (Script.world h)), (Script.INFO, m))] in
  match reach (Script.source_config me) with
  | None =>
      (Script.Failed (Script.OperationalError (Script.source_config me)),
       Script.mkHost (Script.world h) me (Script.opened h) (Script.closed h)
         (said Script.ConnectingSource) (Script.issued h))
  | Some d =>
      if decide (Script.target_config me <> Script.source_config me) then
        match reach (Script.target_config me) with
        | None =>
            (Script.Failed (Script.OperationalError (Script.target_config me)),
             Script.mkHost (Script.world h)
               (Script.mkInstance (Script.source_config me) (Script.target_config me)
                  (Script.batch_size me) (Some n) (Script.target_conn me))
               (Script.opened h ++ [d]) (Script.closed h)
               (said Script.ConnectingSource
                ++ [(length (log (Script.world h)), (Script.INFO, Script.ConnectingTarget))])
               (Script.issued h))
        | Some d' =>
            (Script.Done tt,
             Script.mkHost (Script.world h)
               (Script.mkInstance (Script.source_config me) (Script.target_config me)
                  (Script.batch_size me) (Some n) (Some (S n)))
               ((Script.opened h ++ [d]) ++ [d']) (Script.closed h)
               (said Script.ConnectingSource
                ++ [(length (log (Script.world h)), (Script.INFO, Script.ConnectingTarget))])
               (Script.issued h))
        end
      else
        (Script.Done tt,
         Script.mkHost (Script.world h)
           (Script.mkInstance (Script.source_config me) (Script.target_config me)
              (Script.batch_size me) (Some n) (Some n))
           (Script.opened h ++ [d]) (Script.closed h)
           (said Script.ConnectingSource
            ++ [(length (log (Script.world h)), (Script.INFO, Script.UsingSameDatabase))])
           (Script.issued h))
  end.
Proof.
  unfold Script.connect, Script.psycopg2_connect, Script.note, Script.self,
    Script.assign, mbind, Script.H_bind. cbn.
  destruct (reach (Script.source_config (Script.this h))) as [d|]; [|reflexivity].
  cbn. destruct (decide _) as [Hne|Heq]; cbn; [|reflexivity].
  destruct (reach (Script.target_config (Script.this h))) as [d'|]; cbn.
  - rewrite length_app. simpl. rewrite Nat.add_1_r. reflexivity.
  - reflexivity.
Qed.

(** X10. When both databases can be reached, [connect] returns with both
    sessions set, each attached to the database its configuration reaches.
    The two are one and the same session exactly when the two
    configurations are equal, in which case only one session is opened;
    otherwise two are.  No session is closed and no table, statement or
    log record of the methods is touched. *)
Theorem connect_sessions h d d' :
  reach (Script.source_config (Script.this h)) = Some d ->
  reach (Script.target_config (Script.this h)) = Some d' ->
  let connected := Script.connect reach h in
  connected.1 = Script.Done tt /\
  exists s t,
    Script.source_conn (Script.this connected.2) = Some s /\
    Script.target_conn (Script.this connected.2) = Some t /\
    (s = t <-> Script.target_config (Script.this h) = Script.source_config (Script.this h)) /\
    Script.opened connected.2 !! s = Some d /\
    Script.opened connected.2 !! t = Some d' /\
    Script.opened connected.2
    = Script.opened h
      ++ (if decide (Script.target_config (Script.this h)
                     = Script.source_config (Script.this h))
          then [d] else [d; d']) /\
    Script.closed connected.2 = Script.closed h /\
    Script.world connected.2 = Script.world h.
Proof.
  intros Hsrc Htgt connected. subst connected.
  rewrite connect_run. cbv zeta. rewrite Hsrc.
  destruct (decide (Script.target_config (Script.this h)
                    <> Script.source_config (Script.this h))) as [Hne|Heq].
  - rewrite Htgt. split; [reflexivity|]. simpl.
    exists (length (Script.opened h)), (S (length (Script.opened h))).
    rewrite decide_False by exact Hne.
    repeat split; try tauto; try lia.
    + rewrite lookup_app_l by (rewrite length_app; simpl; lia).
      apply list_lookup_middle. reflexivity.
    + apply list_lookup_middle. rewrite length_app. simpl. lia.
    + rewrite <- app_assoc. reflexivity.
  - apply dec_stable in Heq. rewrite Heq, Hsrc in Htgt. injection Htgt as <-.
    split; [reflexivity|]. simpl.
    exists (length (Script.opened h)), (length (Script.opened h)).
    rewrite decide_True by exact Heq.
    repeat split; try tauto.
    + apply list_lookup_middle. reflexivity.
    + apply list_lookup_middle. reflexivity.
Qed.

Lemma close_run h :
  Script.close h =
  let me := Script.this h in
  (Script.Done tt,
   Script.mkHost (Script.world h) me (Script.opened h)
     (Script.closed h
      ++ match Script.source_conn me with Some s => [s] | None => [] end
      ++ match Script.target_conn me with
         | Some t => if decide (Script.target_conn me <> Script.source_conn me)
                     then [t] else []
         | None => []
         end)
     (Script.report h) (Script.issued h)).
Proof.
  unfold Script.close, Script.self, Script.close_session, mbind, Script.H_bind,
    mret, Script.H_ret. cbn. destruct h as [w [sc tc bs [s|] [t|]] o c r i]; cbn.
  - destruct (decide (Some t <> Some s)); cbn; rewrite <- ?app_assoc; reflexivity.
  - reflexivity.
  - destruct (decide (Some t <> None)) as [_|Hn]; [reflexivity|].
    exfalso. apply Hn. discriminate.
  - rewrite app_nil_r. reflexivity.
Qed.

(** X11. [close] after [connect], on an object that held no session:
    the sessions closed are exactly those that [connect] opened, each once
    and in the order they were opened.  This also holds when [connect]
    failed, on the source or on the target. *)
Theorem connect_then_close h :
  Script.source_conn (Script.this h) = None ->
  Script.target_conn (Script.this h) = None ->
  let h1 := (Script.connect reach h).2 in
  let h2 := (Script.close h1).2 in
  Script.opened h2 = Script.opened h1 /\
  Script.closed h2
  = Script.closed h
    ++ seq (length (Script.opened h))
         (length (Script.opened h1) - length (Script.opened h)).
Proof.
  intros Hsrc Htgt h1 h2. subst h2 h1.
  rewrite close_run, connect_run. cbv zeta.
  destruct (reach (Script.source_config (Script.this h))) as [d|]; simpl.
  - destruct (decide (Script.target_config (Script.this h)
                      <> Script.source_config (Script.this h))) as [Hne|Heq]; simpl.
    + destruct (reach (Script.target_config (Script.this h))) as [d'|]; simpl.
      * split; [reflexivity|]. rewrite !length_app. simpl.
        rewrite decide_True by (intros [=]; lia).
        replace (length (Script.opened h) + 1 + 1 - length (Script.opened h))%nat
          with 2%nat by lia. reflexivity.
      * split; [reflexivity|]. rewrite Htgt, length_app. simpl.
        replace (length (Script.opened h) + 1 - length (Script.opened h))%nat
          with 1%nat by lia. reflexivity.
    + split; [reflexivity|]. rewrite decide_False by (intros Hn; apply Hn; reflexivity).
      rewrite length_app. simpl.
      replace (length (Script.opened h) + 1 - length (Script.opened h))%nat
        with 1%nat by lia. reflexivity.
  - split; [reflexivity|]. rewrite Hsrc, Htgt, Nat.sub_diag. reflexivity.
Qed.

Lemma analyze_outcome h s db :
  Script.source_conn (Script.this h) = Some s ->
  Script.opened h !! s = Some db -> s ∉ Script.closed h ->
  let analyzed := Script.analyze_source_data local_time pretty_size h in
  Script.world analyzed.2 = Script.world h /\
  analyzed.1
  = match tables (Script.world h) !! (db, "sqlth_1_data") with
    | Some rows => analysis local_time pretty_size rows
    | None => Script.Failed (Script.Raised (UndefinedTable (db, "sqlth_1_data")))
    end /\
  Script.issued analyzed.2
  = Script.issued h
    ++ [(length (statements (Script.world h)), Script.SelectStats (db, "sqlth_1_data"))].
Proof.
  intros Hconn Hdb Hopen analyzed. subst analyzed.
  unfold Script.analyze_source_data, Script.self, mbind, Script.H_bind. cbn.
  rewrite Hconn. rewrite cursor_open with (db := db) by assumption. cbn.
  unfold Script.lift, read_table. cbn.
  destruct (tables (Script.world h) !! (db, "sqlth_1_data")) as [rows|];
    [|split; [destruct (Script.world h)|split]; reflexivity].
  cbn. unfold analysis, Script.fromtimestamp, Script.fail.
  destruct (min_t_stamp rows) as [min_ts|] eqn:Hmin.
  - destruct (max_t_stamp rows) as [max_ts|] eqn:Hmax.
    + destruct (local_time min_ts); cbn;
        [destruct (local_time max_ts); cbn|];
        (split; [destruct (Script.world h)|split]; reflexivity).
    + destruct rows; discriminate.
  - cbn. split; [destruct (Script.world h)|split]; reflexivity.
Qed.

(** X12. On an empty [sqlth_1_data], [analyze_source_data] raises
    [TypeError]: it has logged its header and the two counts, both 0, and
    stops at the date range, the least and greatest [t_stamp] being NULL.
    The tables, statements and log of the methods are untouched. *)
Theorem analyze_empty_table h s db :
  Script.source_conn (Script.this h) = Some s ->
  Script.opened h !! s = Some db -> s ∉ Script.closed h ->
  tables (Script.world h) !! (db, "sqlth_1_data") = Some [] ->
  let analyzed := Script.analyze_source_data local_time pretty_size h in
  analyzed.1 = Script.Failed (Script.Raised TypeError) /\
  Script.world analyzed.2 = Script.world h /\
  snd <$> Script.report analyzed.2
  = (snd <$> Script.report h)
    ++ [(Script.INFO, Script.AnalyzingSourceData);
        (Script.INFO, Script.TotalRecords 0);
        (Script.INFO, Script.UniqueTags 0)].
Proof.
  intros Hconn Hdb Hopen Hempty analyzed. subst analyzed.
  destruct (analyze_outcome h s db Hconn Hdb Hopen) as (Hworld & Hres & _).
  rewrite Hempty in Hres. split; [exact Hres|]. split; [exact Hworld|].
  unfold Script.analyze_source_data, Script.self, mbind, Script.H_bind. cbn.
  rewrite Hconn. rewrite cursor_open with (db := db) by assumption. cbn.
  unfold Script.lift, read_table. cbn. rewrite Hempty. cbn.
  rewrite !fmap_app, <- !app_assoc. reflexivity.
Qed.

Lemma string_length_app (a b : string) :
  String.length (a +:+ b) = (String.length a + String.length b)%nat.
Proof. induction a as [|c a IH]; simpl; [reflexivity|]. rewrite IH. reflexivity. Qed.

Lemma backup_name_differs table_name stamp :
  Script.backup_name_of table_name stamp <> table_name.
Proof.
  intros Heq. apply (f_equal String.length) in Heq.
  unfold Script.backup_name_of in Heq. rewrite !string_length_app in Heq.
  simpl in Heq. lia.
Qed.

Lemma create_backup_outcome stamp table_name h s db :
  Script.target_conn (Script.this h) = Some s ->
  Script.opened h !! s = Some db -> s ∉ Script.closed h ->
  let backup := (db, Script.backup_name_of table_name stamp) in
  let made := Script.create_backup stamp table_name h in
  made.1
  = match tables (Script.world h) !! (db, table_name),
          tables (Script.world h) !! backup with
    | None, _ => Script.Failed (Script.Raised (UndefinedTable (db, table_name)))
    | Some _, Some _ => Script.Failed (Script.DuplicateTable backup)
    | Some _, None => Script.Done (Script.backup_name_of table_name stamp)
    end /\
  tables (Script.world made.2)
  = match tables (Script.world h) !! (db, table_name),
          tables (Script.world h) !! backup with
    | Some rows, None => <[backup := rows]> (tables (Script.world h))
    | _, _ => tables (Script.world h)
    end.
Proof.
  intros Hconn Hdb Hopen backup made. subst backup made.
  unfold Script.create_backup, Script.create_table_as, Script.self,
    mbind, Script.H_bind. cbn.
  rewrite Hconn. rewrite cursor_open with (db := db) by assumption. cbn.
  unfold Script.lift, read_table. cbn.
  destruct (tables (Script.world h) !! (db, table_name)) as [rows|];
    [|split; reflexivity].
  cbn. destruct (tables (Script.world h) !! (db, Script.backup_name_of table_name stamp));
    split; reflexivity.
Qed.

(** X13. [create_backup] of a table that exists, under a name that is
    free, returns the name [<table>_backup_<stamp>]; the table of that name
    now holds the rows of the original, and every other table, the original
    included, is as it was. *)
Theorem create_backup_copies stamp table_name h s db rows :
  Script.target_conn (Script.this h) = Some s ->
  Script.opened h !! s = Some db -> s ∉ Script.closed h ->
  tables (Script.world h) !! (db, table_name) = Some rows ->
  tables (Script.world h) !! (db, table_name +:+ "_backup_" +:+ stamp) = None ->
  let made := Script.create_backup stamp table_name h in
  made.1 = Script.Done (table_name +:+ "_backup_" +:+ stamp) /\
  tables (Script.world made.2) !! (db, table_name +:+ "_backup_" +:+ stamp) = Some rows /\
  forall u, u <> (db, table_name +:+ "_backup_" +:+ stamp) ->
    tables (Script.world made.2) !! u = tables (Script.world h) !! u.
Proof.
  intros Hconn Hdb Hopen Hrows Hfree made. subst made.
  destruct (create_backup_outcome stamp table_name h s db Hconn Hdb Hopen)
    as [Hres Htab].
  unfold Script.backup_name_of in *. rewrite Hrows, Hfree in Hres, Htab.
  split; [exact Hres|]. rewrite Htab. split; [apply lookup_insert_eq|].
  intros u Hu. apply lookup_insert_ne. congruence.
Qed.

(** X14. Two backups of the same table within the same second: the
    second [create_backup] computes the name of the first, so the database
    refuses it, and it leaves every table as the first one left it. *)
Theorem create_backup_twice_in_a_second stamp table_name h s db rows :
  Script.target_conn (Script.this h) = Some s ->
  Script.opened h !! s = Some db -> s ∉ Script.closed h ->
  tables (Script.world h) !! (db, table_name) = Some rows ->
  tables (Script.world h) !! (db, table_name +:+ "_backup_" +:+ stamp) = None ->
  let h1 := (Script.create_backup stamp table_name h).2 in
  let again := Script.create_backup stamp table_name h1 in
  again.1
  = Script.Failed (Script.DuplicateTable (db, table_name +:+ "_backup_" +:+ stamp)) /\
  tables (Script.world again.2) = tables (Script.world h1).
Proof.
  intros Hconn Hdb Hopen Hrows Hfree h1 again. subst again.
  destruct (create_backup_outcome stamp table_name h s db Hconn Hdb Hopen)
    as [_ Htab].
  destruct (create_backup_same_sessions stamp table_name h) as (Hthis & Hopened & Hclosed).
  fold h1 in Htab, Hthis, Hopened, Hclosed.
  unfold Script.backup_name_of in *. rewrite Hrows, Hfree in Htab.
  destruct (create_backup_outcome stamp table_name h1 s db) as [Hres Htab'].
  - rewrite Hthis. exact Hconn.
  - rewrite Hopened. exact Hdb.
  - rewrite Hclosed. exact Hopen.
  - unfold Script.backup_name_of in *.
    assert (Htable : tables (Script.world h1) !! (db, table_name) = Some rows).
    { rewrite Htab, lookup_insert_ne; [exact Hrows|].
      intros [= Heq]. exact (backup_name_differs table_name stamp Heq). }
    assert (Hthere : tables (Script.world h1) !! (db, table_name +:+ "_backup_" +:+ stamp)
                     = Some rows)
      by (rewrite Htab; apply lookup_insert_eq).
    rewrite Htable, Hthere in Hres, Htab'. split; assumption.
Qed.

(** X15. [migrate_all] into a table never changes a backup of that table:
    whatever the stamp, the table named [<target>_backup_<stamp>] is after
    the run what it was before. *)
Theorem migrate_all_keeps_backup migration source_table target_table stamp db w :
  tables (migrate_all conflict local_day migration source_table target_table w).2
    !! (db, target_table +:+ "_backup_" +:+ stamp)
  = tables w !! (db, target_table +:+ "_backup_" +:+ stamp).
Proof.
  destruct (migrate_all_extends_target conflict local_day migration source_table
              target_table w) as [Hothers _].
  apply Hothers. intros [= _ Heq].
  exact (backup_name_differs target_table stamp Heq).
Qed.

(** ** [main] *)

Local Abbreviation main :=
  (Script.main conflict local_day reach local_time pretty_size).
Local Abbreviation attempt :=
  (Script.attempt conflict local_day reach local_time pretty_size).
Local Abbreviation after_connect :=
  (Script.after_connect conflict local_day local_time pretty_size).

Lemma main_run args stamp h :
  main args stamp h
  = match attempt args stamp (entering args h) with
    | (Script.Done _, h1) => (0, (Script.close h1).2)
    | (Script.Failed f, h1) =>
        (1, (Script.close (Script.note Script.ERROR (Script.MigrationFailed f) h1).2).2)
    end.
Proof. reflexivity. Qed.

Lemma main_tables args stamp h :
  tables (Script.world (main args stamp h).2)
  = tables (Script.world (attempt args stamp (entering args h)).2).
Proof.
  rewrite main_run.
  destruct (attempt args stamp (entering args h)) as [[[]|f] h1]; simpl.
  - apply close_same_tables.
  - rewrite (close_same_tables _). reflexivity.
Qed.

Lemma after_connect_same_sessions args stamp :
  preserves same_sessions (after_connect args stamp).
Proof.
  pose proof analyze_same_sessions.
  pose proof connected_same_sessions.
  pose proof (create_backup_same_sessions).
  unfold Script.after_connect. preserves_steps.
Qed.

(** The sessions of a run: what [connect] opens, and what the object holds
    when the [try] is left. *)
Lemma attempt_sessions args stamp h :
  let h1 := (attempt args stamp (entering args h)).2 in
  let n := length (Script.opened h) in
  Script.closed h1 = Script.closed h /\
  match reach (Script.db_config args) with
  | Some d =>
      Script.opened h1 = Script.opened h ++ [d] /\
      Script.source_conn (Script.this h1) = Some n /\
      Script.target_conn (Script.this h1) = Some n
  | None =>
      Script.opened h1 = Script.opened h /\
      Script.source_conn (Script.this h1) = None /\
      Script.target_conn (Script.this h1) = None
  end.
Proof.
  intros h1 n. subst h1. unfold Script.attempt, mbind, Script.H_bind.
  rewrite connect_run. cbv zeta. simpl.
  destruct (reach (Script.db_config args)) as [d|]; [|repeat split].
  rewrite decide_False by (intros Hne; apply Hne; reflexivity).
  match goal with
  | |- context [after_connect args stamp ?h'] =>
      destruct (after_connect_same_sessions args stamp h') as (Hthis & Hopened & Hclosed)
  end.
  simpl in Hthis, Hopened, Hclosed.
  rewrite Hclosed, Hopened, Hthis. repeat split.
Qed.

(** X16. [main] opens at most one session, since it gives the object the
    same configuration for source and target, and closes it before it
    ends, on every path: success, failure of any step, or validation only.
    When the database cannot be reached it opens and closes nothing. *)
Theorem main_closes_what_it_opened args stamp h :
  let left := (main args stamp h).2 in
  match reach (Script.db_config args) with
  | Some d =>
      Script.opened left = Script.opened h ++ [d] /\
      Script.closed left = Script.closed h ++ [length (Script.opened h)]
  | None =>
      Script.opened left = Script.opened h /\
      Script.closed left = Script.closed h
  end.
Proof.
  intros left. subst left. rewrite main_run.
  pose proof (attempt_sessions args stamp h) as Hses. cbv zeta in Hses.
  destruct (attempt args stamp (entering args h)) as [[[]|f] h1]; simpl in Hses |- *;
    rewrite close_run; cbv zeta; simpl;
    destruct Hses as [Hclosed Hses];
    destruct (reach (Script.db_config args)) as [d|];
    destruct Hses as (Hopened & Hsrc & Htgt);
    rewrite Hclosed, Hopened, Hsrc, Htgt; split; try reflexivity.
  all: try (rewrite decide_False by (intros Hne; apply Hne; reflexivity); reflexivity).
  all: rewrite app_nil_r; reflexivity.
Qed.

(** X17. When the database cannot be reached, [main] ends with status 1:
    the failure is logged as an ERROR right after the first log record, no
    session is opened or closed, no statement is issued, and nothing of the
    tables, statements and log of the methods has changed. *)
Theorem main_unreachable_database args stamp h :
  reach (Script.db_config args) = None ->
  let ended := main args stamp h in
  ended.1 = 1 /\
  Script.world ended.2 = Script.world h /\
  Script.opened ended.2 = Script.opened h /\
  Script.closed ended.2 = Script.closed h /\
  Script.issued ended.2 = Script.issued h /\
  snd <$> Script.report ended.2
  = (snd <$> Script.report h)
    ++ [(Script.INFO, Script.ConnectingSource);
        (Script.ERROR,
         Script.MigrationFailed (Script.OperationalError (Script.db_config args)))].
Proof.
  intros Hreach ended. subst ended. rewrite main_run.
  unfold Script.attempt, mbind, Script.H_bind. rewrite connect_run. cbv zeta. simpl.
  rewrite Hreach. simpl. rewrite !fmap_app, <- app_assoc. repeat split.
Qed.

(** X18. With [--validate-only], [main] changes no table, whatever the
    arguments and the state of the database, and however the run ends. *)
Theorem main_validate_only_changes_no_table args stamp h :
  Script.args_validate_only args = true ->
  tables (Script.world (main args stamp h).2) = tables (Script.world h).
Proof.
  intros Honly. rewrite main_tables.
  assert (Hkeeps : preserves same_tables (attempt args stamp)).
  { pose proof connect_same_tables.
    pose proof analyze_same_tables.
    pose proof connected_same_tables.
    unfold Script.attempt, Script.after_connect. rewrite Honly. preserves_steps. }
  apply (Hkeeps (entering args h)).
Qed.

Lemma create_backup_same_tables_but stamp table_name names :
  Script.backup_name_of table_name stamp ∈ names ->
  preserves (same_tables_but names) (Script.create_backup stamp table_name).
Proof.
  intros Hin.
  assert (Hwrite : forall db rows,
            preserves (same_tables_but names)
              (Script.lift (write_table (db, Script.backup_name_of table_name stamp) rows))).
  { intros db rows h db' t Ht. simpl. apply lookup_insert_ne.
    intros [= _ <-]. exact (Ht Hin). }
  unfold Script.create_backup, Script.create_table_as.
  preserves_steps; try (apply preserves_same_tables_but; auto with preserves).
Qed.

Lemma migrate_all_same_tables_but migration source_table target_table names :
  target_table ∈ names ->
  preserves (same_tables_but names)
    (Script.lift (migrate_all conflict local_day migration source_table target_table)).
Proof.
  intros Hin h db t Ht.
  destruct (migrate_all_extends_target conflict local_day migration source_table
              target_table (Script.world h)) as [Hothers _].
  unfold Script.lift.
  destruct (migrate_all _ _ _ _ _ _) as [[total|e] w']; simpl in *;
    apply Hothers; intros [= _ ->]; exact (Ht Hin).
Qed.


Lemma lift_done {A : Type} (c : M A) h a w' :
  c (Script.world h) = (Return a, w') ->
  Script.lift c h
  = (Script.Done a,
     Script.mkHost w' (Script.this h) (Script.opened h) (Script.closed h)
       (Script.report h) (Script.issued h)).
Proof. intros Hc. unfold Script.lift. rewrite Hc. reflexivity. Qed.

Lemma analyze_done h s db rows earliest latest :
  Script.source_conn (Script.this h) = Some s ->
  Script.opened h !! s = Some db -> s ∉ Script.closed h ->
  tables (Script.world h) !! (db, "sqlth_1_data") = Some rows ->
  min_t_stamp rows = Some earliest -> max_t_stamp rows = Some latest ->
  is_Some (local_time earliest) -> is_Some (local_time latest) ->
  exists ha,
    Script.analyze_source_data local_time pretty_size h
    = (Script.Done (count_rows rows, count_distinct_tagid rows,
                    Some earliest, Some latest, pretty_size rows), ha) /\
    Script.world ha = Script.world h /\ same_sessions h ha.
Proof.
  intros Hconn Hdb Hopen Hrows Hmin Hmax [e He] [l Hl].
  destruct (analyze_outcome h s db Hconn Hdb Hopen) as (Hworld & Hres & _).
  pose proof (analyze_same_sessions h) as Hses.
  rewrite Hrows in Hres. unfold analysis in Hres. rewrite Hmin, Hmax, He, Hl in Hres.
  destruct (Script.analyze_source_data local_time pretty_size h) as [res ha].
  simpl in *. subst res. exists ha. auto.
Qed.

Lemma create_backup_done stamp table_name h s db rows :
  Script.target_conn (Script.this h) = Some s ->
  Script.opened h !! s = Some db -> s ∉ Script.closed h ->
  tables (Script.world h) !! (db, table_name) = Some rows ->
  tables (Script.world h) !! (db, Script.backup_name_of table_name stamp) = None ->
  exists hb,
    Script.create_backup stamp table_name h
    = (Script.Done (Script.backup_name_of table_name stamp), hb) /\
    tables (Script.world hb)
    = <[(db, Script.backup_name_of table_name stamp) := rows]> (tables (Script.world h)) /\
    same_sessions h hb.
Proof.
  intros Hconn Hdb Hopen Hrows Hfree.
  destruct (create_backup_outcome stamp table_name h s db Hconn Hdb Hopen)
    as [Hres Htab].
  pose proof (create_backup_same_sessions stamp table_name h) as Hses.
  rewrite Hrows, Hfree in Hres, Htab.
  destruct (Script.create_backup stamp table_name h) as [res hb].
  simpl in *. subst res. exists hb. auto.
Qed.

Lemma migrate_all_into_itself migration table_name w :
  (forall r, conflict r r = true) ->
  source_conn migration = target_conn migration ->
  tables (migrate_all conflict local_day migration table_name table_name w).2 = tables w.
Proof.
  intros Hrefl Hsame. rewrite migrate_all_tables.
  destruct (tables w !! (source_conn migration, table_name)) as [srows|]; [|reflexivity].
  destruct (min_t_stamp srows) as [min_ts|]; [|reflexivity].
  destruct (max_t_stamp srows) as [max_ts|]; [|reflexivity].
  rewrite migrate_loop_into_itself; [reflexivity|exact Hrefl|].
  rewrite Hsame. reflexivity.
Qed.

(** How [main] stands once [connect()] has returned. *)
Lemma attempt_connected args stamp h d :
  sound h -> reach (Script.db_config args) = Some d ->
  exists h1,
    attempt args stamp (entering args h) = after_connect args stamp h1 /\
    Script.world h1 = Script.world h /\
    Script.issued h1 = Script.issued h /\
    Script.batch_size (Script.this h1) = Script.args_batch_size args /\
    Script.source_conn (Script.this h1) = Some (length (Script.opened h)) /\
    Script.target_conn (Script.this h1) = Some (length (Script.opened h)) /\
    Script.opened h1 !! length (Script.opened h) = Some d /\
    length (Script.opened h) ∉ Script.closed h1.
Proof.
  intros Hsound Hreach. unfold Script.attempt, mbind, Script.H_bind.
  rewrite connect_run. cbv zeta. simpl. rewrite Hreach.
  rewrite decide_False by (intros Hne; apply Hne; reflexivity).
  eexists. split; [reflexivity|]. simpl. repeat split.
  - apply list_lookup_middle. reflexivity.
  - apply sound_next, Hsound.
Qed.

(** X20. The analysis reads [sqlth_1_data], not the tables [main] was
    asked to migrate.  When the database reached has no such table, or an
    empty one, [main] ends with status 1, whatever the source and target
    tables are: the only statement issued is the statistics query, the last
    log record is the ERROR that carries the exception, and nothing of the
    tables, statements and log of the methods has changed. *)
Theorem main_needs_sqlth_1_data args stamp h d :
  sound h -> reach (Script.db_config args) = Some d ->
  (forall rows, tables (Script.world h) !! (d, "sqlth_1_data") = Some rows -> rows = []) ->
  let ended := main args stamp h in
  let why := match tables (Script.world h) !! (d, "sqlth_1_data") with
             | Some _ => TypeError
             | None => UndefinedTable (d, "sqlth_1_data")
             end in
  ended.1 = 1 /\
  Script.world ended.2 = Script.world h /\
  snd <$> Script.issued ended.2
  = (snd <$> Script.issued h) ++ [Script.SelectStats (d, "sqlth_1_data")] /\
  last (snd <$> Script.report ended.2)
  = Some (Script.ERROR, Script.MigrationFailed (Script.Raised why)).
Proof.
  intros Hsound Hreach Hempty ended why. subst ended why. rewrite main_run.
  destruct (attempt_connected args stamp h d Hsound Hreach)
    as (h1 & -> & Hworld & Hissued & _ & Hsrc & _ & Hdb & Hopen).
  destruct (analyze_outcome h1 _ d Hsrc Hdb Hopen) as (Hw & Hres & Hiss).
  rewrite Hworld in Hres, Hiss.
  assert (Hfailed : (Script.analyze_source_data local_time pretty_size h1).1
                    = Script.Failed (Script.Raised
                        match tables (Script.world h) !! (d, "sqlth_1_data") with
                        | Some _ => TypeError
                        | None => UndefinedTable (d, "sqlth_1_data")
                        end)).
  { rewrite Hres. destruct (tables (Script.world h) !! (d, "sqlth_1_data")) as [rows|] eqn:E;
      [|reflexivity].
    rewrite (Hempty rows eq_refl). reflexivity. }
  destruct (Script.analyze_source_data local_time pretty_size h1) as [res ha] eqn:Hrun.
  simpl in Hw, Hiss, Hfailed. subst res.
  unfold Script.after_connect. rewrite (bind_failed _ _ _ _ _ Hrun).
  rewrite close_run. cbv zeta. simpl.
  split; [reflexivity|]. split; [congruence|]. split.
  - rewrite Hiss, Hissued, fmap_app. reflexivity.
  - rewrite fmap_app. apply last_snoc.
Qed.

(** X21. A full run of [main] with the same table as source and target
    (as with the default arguments), on a table that is not empty and whose
    constraints reject a row that is already stored: when the analysis
    succeeds, the backup name is free and every date can be printed, the
    run ends with status 0, and the tables are what they were plus the
    backup, which holds the rows of the table. *)
Theorem main_same_table_run args stamp h d table_name all rows
    earliest latest min_ts max_ts :
  (forall r, conflict r r = true) ->
  sound h -> reach (Script.db_config args) = Some d ->
  Script.args_validate_only args = false ->
  Script.args_no_backup args = false ->
  Script.args_source_table args = table_name ->
  Script.args_target_table args = table_name ->
  tables (Script.world h) !! (d, "sqlth_1_data") = Some all ->
  min_t_stamp all = Some earliest -> max_t_stamp all = Some latest ->
  is_Some (local_time earliest) -> is_Some (local_time latest) ->
  tables (Script.world h) !! (d, table_name) = Some rows ->
  min_t_stamp rows = Some min_ts -> max_t_stamp rows = Some max_ts ->
  (forall t, min_ts <= t < max_ts -> is_Some (local_day t)) ->
  tables (Script.world h) !! (d, table_name +:+ "_backup_" +:+ stamp) = None ->
  let ended := main args stamp h in
  ended.1 = 0 /\
  tables (Script.world ended.2)
  = <[(d, table_name +:+ "_backup_" +:+ stamp) := rows]> (tables (Script.world h)).
Proof.
  intros Hrefl Hsound Hreach Honly Hnb Hsource Htarget Hall Hearliest Hlatest
    Hte Htl Hrows Hmin Hmax Hdays Hfree ended. subst ended. rewrite main_run.
  destruct (attempt_connected args stamp h d Hsound Hreach)
    as (h1 & -> & Hworld & _ & Hbatch & Hsrc & Htgt & Hdb & Hopen).
  assert (Hrun : exists hf,
            after_connect args stamp h1 = (Script.Done tt, hf) /\
            tables (Script.world hf)
            = <[(d, table_name +:+ "_backup_" +:+ stamp) := rows]>
                (tables (Script.world h))).
  { rewrite <- Hworld in Hall, Hrows, Hfree. rewrite <- Hworld. clear Hworld.
    destruct (analyze_done h1 _ d all earliest latest Hsrc Hdb Hopen Hall
                Hearliest Hlatest Hte Htl)
      as (ha & Hanalyze & Hwa & Hthis & Hopened & Hclosed).
    unfold Script.after_connect. rewrite (bind_done _ _ _ _ _ Hanalyze).
    rewrite Honly, Hnb, Hsource, Htarget.
    rewrite <- Hthis in Hsrc, Htgt, Hbatch. rewrite <- Hopened in Hdb.
    rewrite <- Hclosed in Hopen. rewrite <- Hwa in Hall, Hrows, Hfree. rewrite <- Hwa.
    clear Hanalyze Hthis Hopened Hclosed Hwa.
    destruct (create_backup_done stamp table_name ha _ d rows Htgt Hdb Hopen Hrows Hfree)
      as (hb & Hbackup & Htab & Hthis & Hopened & Hclosed).
    rewrite <- Hthis in Hsrc, Htgt, Hbatch. rewrite <- Hopened in Hdb.
    rewrite <- Hclosed in Hopen. clear Hthis Hopened Hclosed.
    set (said := (Script.note Script.INFO
                    (Script.BackupName (Script.backup_name_of table_name stamp)) hb).2).
    assert (Hfirst : (Script.create_backup stamp table_name
                      ≫= (fun backup_name =>
                            Script.note Script.INFO (Script.BackupName backup_name))) ha
                     = (Script.Done tt, said))
      by (rewrite (bind_done _ _ _ _ _ Hbackup); reflexivity).
    rewrite (bind_done _ _ _ _ _ Hfirst).
    set (at_world := fun w' =>
           Script.mkHost w' (Script.this said) (Script.opened said)
             (Script.closed said) (Script.report said) (Script.issued said)).
    assert (Hconnected : forall w',
              Script.connected (at_world w')
              = (Script.Done (mkMigration (Script.args_batch_size args) d d),
                 at_world w')).
    { intros w'. rewrite <- Hbatch.
      exact (connected_done (at_world w') _ _ d d Hsrc Htgt Hdb Hdb Hopen Hopen). }
    change said with (at_world (Script.world hb)).
    rewrite (bind_done _ _ _ _ _ (Hconnected _)).
    set (me := mkMigration (Script.args_batch_size args) d d) in *.
    assert (Hrows' : tables (Script.world hb) !! (d, table_name) = Some rows).
    { rewrite Htab, lookup_insert_ne; [exact Hrows|].
      intros [= Heq]. exact (backup_name_differs table_name stamp Heq). }
    pose proof (migrate_all_total conflict local_day me table_name table_name
                  (Script.world hb) rows rows min_ts max_ts Hrows' Hrows' Hmin Hmax Hdays)
      as Htotal.
    pose proof (migrate_all_into_itself me table_name (Script.world hb) Hrefl eq_refl)
      as Hidle.
    destruct (migrate_all conflict local_day me table_name table_name (Script.world hb))
      as [res w1] eqn:Hmigrate.
    simpl in Htotal, Hidle. subst res.
    rewrite (bind_done _ _ _ _ _
               (lift_done _ (at_world (Script.world hb)) _ _ Hmigrate)).
    change (Script.mkHost w1 _ _ _ _ _) with (at_world w1).
    rewrite (bind_done _ _ _ _ _ (Hconnected _)). fold me.
    assert (Hrows1 : tables w1 !! (d, table_name) = Some rows)
      by (rewrite Hidle; exact Hrows').
    pose proof (validate_migration_run me table_name table_name w1 rows rows
                  Hrows1 Hrows1) as Hvalidate.
    rewrite (bind_done _ _ _ _ _ (lift_done _ (at_world w1) _ _ Hvalidate)).
    eexists. split; [reflexivity|]. simpl. rewrite Hidle. exact Htab. }
  destruct Hrun as (hf & -> & Hfinal). simpl.
  split; [reflexivity|]. rewrite (close_same_tables hf). exact Hfinal.
Qed.

Lemma create_backup_missing stamp table_name h s db :
  Script.target_conn (Script.this h) = Some s ->
  Script.opened h !! s = Some db -> s ∉ Script.closed h ->
  tables (Script.world h) !! (db, table_name) = None ->
  exists hb,
    Script.create_backup stamp table_name h
    = (Script.Failed (Script.Raised (UndefinedTable (db, table_name))), hb) /\
    Script.world hb = Script.world h.
Proof.
  intros Hconn Hdb Hopen Hnone.
  unfold Script.create_backup, Script.create_table_as, Script.self,
    mbind, Script.H_bind. cbn.
  rewrite Hconn. rewrite cursor_open with (db := db) by assumption. cbn.
  unfold Script.lift, read_table. cbn. rewrite Hnone. cbn.
  eexists. split; [reflexivity|]. destruct (Script.world h); reflexivity.
Qed.

(** X22. When the analysis succeeds but the target table does not exist,
    a run of [main] that is to make a backup ends with status 1 at the
    backup: the last log record is the ERROR for the undefined table, and
    the migration has not started, nothing of the tables, statements and
    log of the methods having changed. *)
Theorem main_missing_target_table args stamp h d all earliest latest :
  sound h -> reach (Script.db_config args) = Some d ->
  Script.args_validate_only args = false ->
  Script.args_no_backup args = false ->
  tables (Script.world h) !! (d, "sqlth_1_data") = Some all ->
  min_t_stamp all = Some earliest -> max_t_stamp all = Some latest ->
  is_Some (local_time earliest) -> is_Some (local_time latest) ->
  tables (Script.world h) !! (d, Script.args_target_table args) = None ->
  let ended := main args stamp h in
  ended.1 = 1 /\
  Script.world ended.2 = Script.world h /\
  last (snd <$> Script.report ended.2)
  = Some (Script.ERROR,
          Script.MigrationFailed
            (Script.Raised (UndefinedTable (d, Script.args_target_table args)))).
Proof.
  intros Hsound Hreach Honly Hnb Hall Hearliest Hlatest Hte Htl Hnone ended.
  subst ended. rewrite main_run.
  destruct (attempt_connected args stamp h d Hsound Hreach)
    as (h1 & -> & Hworld & _ & _ & Hsrc & Htgt & Hdb & Hopen).
  rewrite <- Hworld in Hall, Hnone. rewrite <- Hworld. clear Hworld.
  destruct (analyze_done h1 _ d all earliest latest Hsrc Hdb Hopen Hall
              Hearliest Hlatest Hte Htl)
    as (ha & Hanalyze & Hwa & Hthis & Hopened & Hclosed).
  unfold Script.after_connect. rewrite (bind_done _ _ _ _ _ Hanalyze).
  rewrite Honly, Hnb.
  rewrite <- Hthis in Htgt. rewrite <- Hopened in Hdb. rewrite <- Hclosed in Hopen.
  rewrite <- Hwa in Hnone. rewrite <- Hwa.
  destruct (create_backup_missing stamp (Script.args_target_table args) ha _ d
              Htgt Hdb Hopen Hnone) as (hb & Hbackup & Hwb).
  rewrite (bind_failed _ _ _ _ _ (bind_failed _ _ _ _ _ Hbackup)).
  rewrite close_run. cbv zeta. simpl.
  split; [reflexivity|]. split; [exact Hwb|].
  rewrite fmap_app. apply last_snoc.
Qed.

(** X23. A mismatch found by the validation does not fail the run.
    [main] without backup, from a source that is not empty into another
    table that was empty: when the analysis succeeds and every date can be
    printed, the validation logs a record count mismatch with a positive
    difference, and [main] still logs that the migration completed
    successfully and ends with status 0. *)
Theorem main_succeeds_despite_mismatch args stamp h d all earliest latest srows :
  sound h -> reach (Script.db_config args) = Some d ->
  Script.args_validate_only args = false ->
  Script.args_no_backup args = true ->
  tables (Script.world h) !! (d, "sqlth_1_data") = Some all ->
  min_t_stamp all = Some earliest -> max_t_stamp all = Some latest ->
  is_Some (local_time earliest) -> is_Some (local_time latest) ->
  Script.args_source_table args <> Script.args_target_table args ->
  tables (Script.world h) !! (d, Script.args_source_table args) = Some srows ->
  tables (Script.world h) !! (d, Script.args_target_table args) = Some [] ->
  srows <> [] ->
  (forall t, is_Some (local_day t)) ->
  let ended := main args stamp h in
  ended.1 = 0 /\
  (exists difference,
     0 < difference /\
     (WARNING, RecordCountMismatch difference) ∈ log (Script.world ended.2)) /\
  last (snd <$> Script.report ended.2)
  = Some (Script.INFO, Script.MigrationCompletedSuccessfully).
Proof.
  intros Hsound Hreach Honly Hnb Hall Hearliest Hlatest Hte Htl Hnames
    Hsrows Htrows Hne Hdays ended. subst ended. rewrite main_run.
  destruct (attempt_connected args stamp h d Hsound Hreach)
    as (h1 & -> & Hworld & _ & Hbatch & Hsrc & Htgt & Hdb & Hopen).
  assert (Hrun : exists hf,
            after_connect args stamp h1 = (Script.Done tt, hf) /\
            (exists difference,
               0 < difference /\
               (WARNING, RecordCountMismatch difference) ∈ log (Script.world hf)) /\
            last (snd <$> Script.report hf)
            = Some (Script.INFO, Script.MigrationCompletedSuccessfully)).
  { rewrite <- Hworld in Hall, Hsrows, Htrows. clear Hworld.
    destruct (analyze_done h1 _ d all earliest latest Hsrc Hdb Hopen Hall
                Hearliest Hlatest Hte Htl)
      as (ha & Hanalyze & Hwa & Hthis & Hopened & Hclosed).
    unfold Script.after_connect. rewrite (bind_done _ _ _ _ _ Hanalyze).
    rewrite Honly, Hnb.
    rewrite <- Hthis in Hsrc, Htgt, Hbatch. rewrite <- Hopened in Hdb.
    rewrite <- Hclosed in Hopen. rewrite <- Hwa in Hall, Hsrows, Htrows.
    clear Hanalyze Hthis Hopened Hclosed Hwa.
    rewrite (bind_done (mret tt) _ ha tt ha eq_refl).
    set (at_world := fun w' =>
           Script.mkHost w' (Script.this ha) (Script.opened ha)
             (Script.closed ha) (Script.report ha) (Script.issued ha)).
    assert (Hconnected : forall w',
              Script.connected (at_world w')
              = (Script.Done (mkMigration (Script.args_batch_size args) d d),
                 at_world w')).
    { intros w'. rewrite <- Hbatch.
      exact (connected_done (at_world w') _ _ d d Hsrc Htgt Hdb Hdb Hopen Hopen). }
    rewrite (bind_done _ _ _ _ _
               (connected_done ha _ _ d d Hsrc Htgt Hdb Hdb Hopen Hopen)), Hbatch.
    set (me := mkMigration (Script.args_batch_size args) d d) in *.
    assert (Hdiff : (source_conn me, Script.args_source_table args)
                    <> (target_conn me, Script.args_target_table args))
      by (intros [= Heq]; exact (Hnames Heq)).
    destruct (min_t_stamp_nonempty srows Hne) as [[min_ts Hmin] [max_ts Hmax]].
    pose proof (migrate_all_total conflict local_day me _ _ (Script.world ha)
                  srows [] min_ts max_ts Hsrows Htrows Hmin Hmax
                  (fun t _ => Hdays t)) as Htotal.
    destruct (migrate_all_target_stays_behind conflict local_day me _ _
                (Script.world ha) srows [] Hdiff Hsrows Htrows Hne)
      as (Hsrc1 & trows1 & Htgt1 & Hlen).
    destruct (migrate_all conflict local_day me (Script.args_source_table args)
                (Script.args_target_table args) (Script.world ha))
      as [res w1] eqn:Hmigrate.
    simpl in Htotal, Hsrc1, Htgt1. subst res.
    rewrite (bind_done _ _ _ _ _ (lift_done _ ha _ _ Hmigrate)).
    change (Script.mkHost w1 _ _ _ _ _) with (at_world w1).
    rewrite (bind_done _ _ _ _ _ (Hconnected _)). fold me.
    pose proof (validate_migration_run me _ _ w1 srows trows1 Hsrc1 Htgt1)
      as Hvalidate.
    rewrite (bind_done _ _ _ _ _ (lift_done _ (at_world w1) _ _ Hvalidate)).
    eexists. split; [reflexivity|]. simpl. split.
    - exists (count_rows srows - count_rows trows1).
      unfold count_rows. simpl in Hlen. split; [lia|].
      rewrite elem_of_app. right.
      unfold count_verdict, count_rows. rewrite decide_False by lia.
      rewrite !elem_of_cons. right. right. right. left. reflexivity.
    - rewrite fmap_app. apply last_snoc. }
  destruct Hrun as (hf & -> & Hwarn & Hlast). simpl.
  rewrite close_run. cbv zeta. simpl. auto.
Qed.

End ScriptFacts.

(** ** The further properties at work on concrete tables *)

Lemma pk_conflict_refl r : pk_conflict r r = true.
Proof. unfold pk_conflict. apply bool_decide_eq_true. split; reflexivity. Qed.




Lemma migrate_all_shortfall_witness :
  (migrate_all pk_conflict utc_day me "sqlth_1_data" "sqlth_1_data_ts"
     (two_tables [rec_at 1 1000; rec_at 1 3000; rec_at 2 3000] [])).1
  = Return (count_rows [rec_at 1 1000; rec_at 1 3000; rec_at 2 3000]
            - count_rows (filter (at_instant 3000)
                            [rec_at 1 1000; rec_at 1 3000; rec_at 2 3000])) /\
  1 <= count_rows (filter (at_instant 3000)
                     [rec_at 1 1000; rec_at 1 3000; rec_at 2 3000]).
Proof.
  apply (migrate_all_shortfall pk_conflict utc_day me
           "sqlth_1_data" "sqlth_1_data_ts" _ _ [] 1000 3000).
  - vm_compute. reflexivity.
  - vm_compute. reflexivity.
  - reflexivity.
  - reflexivity.
  - intros t _. eexists. reflexivity.
Defined.

Lemma validate_after_fresh_migration_warns_witness :
  let w1 := (migrate_all pk_conflict utc_day me "sqlth_1_data" "sqlth_1_data_ts"
               (two_tables [rec_at 1 1000; rec_at 2 2000] [])).2 in
  let validated := validate_migration me "sqlth_1_data" "sqlth_1_data_ts" w1 in
  validated.1 = Return tt /\
  exists difference,
    0 < difference /\
    (WARNING, RecordCountMismatch difference) ∈ log validated.2.
Proof.
  apply (validate_after_fresh_migration_warns pk_conflict utc_day me
           "sqlth_1_data" "sqlth_1_data_ts" _ [rec_at 1 1000; rec_at 2 2000]).
  - discriminate.
  - vm_compute. reflexivity.
  - vm_compute. reflexivity.
  - discriminate.
Defined.

Lemma validate_table_against_itself_witness :
  let w := two_tables [rec_at 1 1000; rec_at 2 2000] [] in
  let validated := validate_migration me "sqlth_1_data" "sqlth_1_data" w in
  validated.1 = Return tt /\
  log validated.2
  = log w ++ [(INFO, ValidatingMigration);
              (INFO, SourceRecords (count_rows [rec_at 1 1000; rec_at 2 2000]));
              (INFO, TargetRecords (count_rows [rec_at 1 1000; rec_at 2 2000]));
              (INFO, RecordCountsMatch);
              (INFO, TimestampRangesMatch);
              (INFO, TagCountsMatch (count_distinct_tagid [rec_at 1 1000; rec_at 2 2000]))].
Proof.
  apply (validate_table_against_itself me "sqlth_1_data" "sqlth_1_data").
  - reflexivity.
  - vm_compute. reflexivity.
Defined.


Lemma migrate_batch_twice_adds_nothing_witness :
  let w := two_tables [rec_at 1 1000; rec_at 2 2000] [] in
  let w1 := (migrate_batch pk_conflict me 0 5000 "sqlth_1_data" "sqlth_1_data_ts" w).2 in
  tables (migrate_batch pk_conflict me 0 5000 "sqlth_1_data" "sqlth_1_data_ts" w1).2
  = tables w1.
Proof.
  apply (migrate_batch_twice_adds_nothing pk_conflict me 0 5000
           "sqlth_1_data" "sqlth_1_data_ts").
  exact pk_conflict_refl.
Defined.

Lemma connect_sessions_witness :
  let connected := Script.connect by_port (fresh historian archive (two_tables [] [])) in
  connected.1 = Script.Done tt /\
  exists s t,
    Script.source_conn (Script.this connected.2) = Some s /\
    Script.target_conn (Script.this connected.2) = Some t /\
    (s = t <-> archive = historian) /\
    Script.opened connected.2 !! s = Some 0%nat /\
    Script.opened connected.2 !! t = Some 1%nat /\
    Script.opened connected.2
    = [] ++ (if decide (archive = historian) then [0%nat] else [0%nat; 1%nat]) /\
    Script.closed connected.2 = [] /\
    Script.world connected.2 = two_tables [] [].
Proof.
  apply (connect_sessions by_port (fresh historian archive (two_tables [] []))).
  - reflexivity.
  - reflexivity.
Defined.

Lemma connect_then_close_witness :
  let h := fresh historian archive (two_tables [] []) in
  let h1 := (Script.connect by_port h).2 in
  let h2 := (Script.close h1).2 in
  Script.opened h2 = Script.opened h1 /\
  Script.closed h2
  = Script.closed h
    ++ seq (length (Script.opened h))
         (length (Script.opened h1) - length (Script.opened h)).
Proof.
  apply (connect_then_close by_port (fresh historian archive (two_tables [] []))).
  - reflexivity.
  - reflexivity.
Defined.

Lemma analyze_empty_table_witness :
  let h := linked (two_tables [] [rec_at 1 1000]) in
  let analyzed := Script.analyze_source_data utc_seconds one_page h in
  analyzed.1 = Script.Failed (Script.Raised TypeError) /\
  Script.world analyzed.2 = Script.world h /\
  snd <$> Script.report analyzed.2
  = (snd <$> Script.report h)
    ++ [(Script.INFO, Script.AnalyzingSourceData);
        (Script.INFO, Script.TotalRecords 0);
        (Script.INFO, Script.UniqueTags 0)].
Proof.
  apply (analyze_empty_table utc_seconds one_page
           (linked (two_tables [] [rec_at 1 1000])) 0%nat 0%nat).
  - reflexivity.
  - reflexivity.
  - apply not_elem_of_nil.
  - vm_compute. reflexivity.
Defined.

Lemma create_backup_copies_witness :
  let h := linked (two_tables [rec_at 1 1000; rec_at 2 2000] []) in
  let made := Script.create_backup "20251207_120000" "sqlth_1_data" h in
  made.1 = Script.Done ("sqlth_1_data" +:+ "_backup_" +:+ "20251207_120000") /\
  tables (Script.world made.2)
    !! (0%nat, "sqlth_1_data" +:+ "_backup_" +:+ "20251207_120000")
  = Some [rec_at 1 1000; rec_at 2 2000] /\
  forall u, u <> (0%nat, "sqlth_1_data" +:+ "_backup_" +:+ "20251207_120000") ->
    tables (Script.world made.2) !! u = tables (Script.world h) !! u.
Proof.
  apply (create_backup_copies "20251207_120000" "sqlth_1_data"
           (linked (two_tables [rec_at 1 1000; rec_at 2 2000] [])) 0%nat 0%nat).
  - reflexivity.
  - reflexivity.
  - apply not_elem_of_nil.
  - vm_compute. reflexivity.
  - vm_compute. reflexivity.
Defined.

Lemma create_backup_twice_in_a_second_witness :
  let h := linked (two_tables [rec_at 1 1000; rec_at 2 2000] []) in
  let h1 := (Script.create_backup "20251207_120000" "sqlth_1_data" h).2 in
  let again := Script.create_backup "20251207_120000" "sqlth_1_data" h1 in
  again.1
  = Script.Failed
      (Script.DuplicateTable (0%nat, "sqlth_1_data" +:+ "_backup_" +:+ "20251207_120000")) /\
  tables (Script.world again.2) = tables (Script.world h1).
Proof.
  apply (create_backup_twice_in_a_second "20251207_120000" "sqlth_1_data"
           (linked (two_tables [rec_at 1 1000; rec_at 2 2000] [])) 0%nat 0%nat
           [rec_at 1 1000; rec_at 2 2000]).
  - reflexivity.
  - reflexivity.
  - apply not_elem_of_nil.
  - vm_compute. reflexivity.
  - vm_compute. reflexivity.
Defined.

Lemma main_unreachable_database_witness :
  let h := fresh historian historian (two_tables [rec_at 1 1000] []) in
  let ended := Script.main pk_conflict utc_day unreachable utc_seconds one_page
                 defaults "20251207_120000" h in
  ended.1 = 1 /\
  Script.world ended.2 = Script.world h /\
  Script.opened ended.2 = Script.opened h /\
  Script.closed ended.2 = Script.closed h /\
  Script.issued ended.2 = Script.issued h /\
  snd <$> Script.report ended.2
  = (snd <$> Script.report h)
    ++ [(Script.INFO, Script.ConnectingSource);
        (Script.ERROR,
         Script.MigrationFailed (Script.OperationalError (Script.db_config defaults)))].
Proof.
  apply (main_unreachable_database pk_conflict utc_day unreachable utc_seconds one_page
           defaults "20251207_120000").
  reflexivity.
Defined.

Lemma main_validate_only_changes_no_table_witness :
  let h := fresh historian historian
             (two_tables [rec_at 1 1000; rec_at 2 2000] [rec_at 1 1000]) in
  tables (Script.world
            (Script.main pk_conflict utc_day by_port utc_seconds one_page
               (validate_only (with_tables "sqlth_1_data" "sqlth_1_data_ts" defaults))
               "20251207_120000" h).2)
  = tables (Script.world h).
Proof.
  apply (main_validate_only_changes_no_table pk_conflict utc_day by_port utc_seconds
           one_page).
  reflexivity.
Defined.


Lemma main_needs_sqlth_1_data_witness :
  let w := mkWorld (<[(0%nat, "sqlt_data_1_2025_12") := [rec_at 1 1000; rec_at 2 2000]]>
                      (<[(0%nat, "sqlth_1_data_ts") := []]> ∅)) [] [] in
  let h := fresh historian historian w in
  let ended := Script.main pk_conflict utc_day by_port utc_seconds one_page
                 (with_tables "sqlt_data_1_2025_12" "sqlth_1_data_ts" defaults)
                 "20251207_120000" h in
  let why := match tables (Script.world h) !! (0%nat, "sqlth_1_data") with
             | Some _ => TypeError
             | None => UndefinedTable (0%nat, "sqlth_1_data")
             end in
  ended.1 = 1 /\
  Script.world ended.2 = Script.world h /\
  snd <$> Script.issued ended.2
  = (snd <$> Script.issued h) ++ [Script.SelectStats (0%nat, "sqlth_1_data")] /\
  last (snd <$> Script.report ended.2)
  = Some (Script.ERROR, Script.MigrationFailed (Script.Raised why)).
Proof.
  apply (main_needs_sqlth_1_data pk_conflict utc_day by_port utc_seconds one_page
           (with_tables "sqlt_data_1_2025_12" "sqlth_1_data_ts" defaults)
           "20251207_120000").
  - apply Forall_nil_2.
  - reflexivity.
  - intros rows. vm_compute. discriminate.
Defined.

Lemma main_same_table_run_witness :
  let h := fresh historian historian (two_tables [rec_at 1 1000; rec_at 2 2000] []) in
  let ended := Script.main pk_conflict utc_day by_port utc_seconds one_page
                 defaults "20251207_120000" h in
  ended.1 = 0 /\
  tables (Script.world ended.2)
  = <[(0%nat, "sqlth_1_data" +:+ "_backup_" +:+ "20251207_120000")
      := [rec_at 1 1000; rec_at 2 2000]]> (tables (Script.world h)).
Proof.
  apply (main_same_table_run pk_conflict utc_day by_port utc_seconds one_page
           defaults "20251207_120000" _ 0%nat "sqlth_1_data"
           [rec_at 1 1000; rec_at 2 2000] [rec_at 1 1000; rec_at 2 2000]
           1000 2000 1000 2000).
  - exact pk_conflict_refl.
  - apply Forall_nil_2.
  - reflexivity.
  - reflexivity.
  - reflexivity.
  - reflexivity.
  - reflexivity.
  - vm_compute. reflexivity.
  - reflexivity.
  - reflexivity.
  - eexists. reflexivity.
  - eexists. reflexivity.
  - vm_compute. reflexivity.
  - reflexivity.
  - reflexivity.
  - intros t _. eexists. reflexivity.
  - vm_compute. reflexivity.
Defined.

Lemma main_missing_target_table_witness :
  let h := fresh historian historian (two_tables [rec_at 1 1000; rec_at 2 2000] []) in
  let args := with_tables "sqlth_1_data" "sqlth_2_data" defaults in
  let ended := Script.main pk_conflict utc_day by_port utc_seconds one_page
                 args "20251207_120000" h in
  ended.1 = 1 /\
  Script.world ended.2 = Script.world h /\
  last (snd <$> Script.report ended.2)
  = Some (Script.ERROR,
          Script.MigrationFailed
            (Script.Raised (UndefinedTable (0%nat, Script.args_target_table args)))).
Proof.
  apply (main_missing_target_table pk_conflict utc_day by_port utc_seconds one_page
           (with_tables "sqlth_1_data" "sqlth_2_data" defaults) "20251207_120000"
           _ 0%nat [rec_at 1 1000; rec_at 2 2000] 1000 2000).
  - apply Forall_nil_2.
  - reflexivity.
  - reflexivity.
  - reflexivity.
  - vm_compute. reflexivity.
  - reflexivity.
  - reflexivity.
  - eexists. reflexivity.
  - eexists. reflexivity.
  - vm_compute. reflexivity.
Defined.

Lemma main_succeeds_despite_mismatch_witness :
  let h := fresh historian historian (two_tables [rec_at 1 1000; rec_at 2 2000] []) in
  let args := Script.mkArgs "localhost" 5432 "historian" "ignition" "secret"
                "sqlth_1_data" "sqlth_1_data_ts" 100000 true false in
  let ended := Script.main pk_conflict utc_day by_port utc_seconds one_page
                 args "20251207_120000" h in
  ended.1 = 0 /\
  (exists difference,
     0 < difference /\
     (WARNING, RecordCountMismatch difference) ∈ log (Script.world ended.2)) /\
  last (snd <$> Script.report ended.2)
  = Some (Script.INFO, Script.MigrationCompletedSuccessfully).
Proof.
  apply (main_succeeds_despite_mismatch pk_conflict utc_day by_port utc_seconds one_page
           (Script.mkArgs "localhost" 5432 "historian" "ignition" "secret"
              "sqlth_1_data" "sqlth_1_data_ts" 100000 true false)
           "20251207_120000" _ 0%nat
           [rec_at 1 1000; rec_at 2 2000] 1000 2000 [rec_at 1 1000; rec_at 2 2000]).
  - apply Forall_nil_2.
  - reflexivity.
  - reflexivity.
  - reflexivity.
  - vm_compute. reflexivity.
  - reflexivity.
  - reflexivity.
  - eexists. reflexivity.
  - eexists. reflexivity.
  - discriminate.
  - vm_compute. reflexivity.
  - vm_compute. reflexivity.
  - discriminate.
  - intros t. eexists. reflexivity.
Defined.
